(** * Streaming session engine of the agent chat front end

    A shallow embedding of
    - [StreamingService.streamAgent] (the frame decoder),
    - the [useAgentChat] hook (conversation state, tool-call table,
      [sendMessage], [stopStreaming], [clearConversation]), and
    - two consumers of the hook's state: the effect of
      [ImprovedFloatingToolPanel] that builds the rows of the tool panel,
      and [formatEventContent] of [EventsLog],
    together with the properties of the engine that the specification
    states about them and further properties read off the code.

    Conventions.
    - A JavaScript object used as an open map is a [gmap string JsValue].
    - [Date.now()], [new Date()] and [Math.random()] are read from an
      environment, indexed by the number of reads made so far; the hook
      carries the read counters.
    - [JSON.parse] is a run-time built-in.  The decoder is generic in
      what it returns and in what the callback does with it, a thrown
      exception included.  For the hook it is a field of the environment,
      [None] standing for a thrown [SyntaxError], and payloads that parse
      are taken at their declared type [StreamingEvent].
    - React state is only ever changed through functional updaters
      ([setState(prev => ...)]), which React applies in call order, so the
      state is threaded explicitly.  One updater is not pure: that of the
      [tool_response] case reads the clock.  React runs it when it next
      renders, so its readings are taken from a sequence of their own,
      [updater_now], about which nothing is assumed.
    - A JavaScript string is held as the bytes of its UTF-8 encoding.
    - An [async] function is cut at its [await]s: [Pending] records where a
      call of [sendMessage] is suspended and [resume] runs it to the next
      [await]; other operations can be applied between two resumptions. *)

From Stdlib Require Import ZArith Lia Ascii String Sorted Permutation.
From stdpp Require Import base option list strings pretty gmap.

Open Scope string_scope.
Open Scope list_scope.

(** ** JavaScript values *)

(** Values of type [any] as [JSON.parse] produces them.  Numbers are kept
    as integers; [undefined] is the [None] of an [option JsValue]. *)
#[warnings="-register-all"] Inductive JsValue : Type :=
| JNull
| JBool (b : bool)
| JNum (n : Z)
| JStr (s : string)
| JArr (items : list JsValue)
| JObj (fields : list (string * JsValue)).

(** Truthiness, as used by [||]. *)
Definition truthy (v : JsValue) : bool :=
  match v with
  | JNull => false
  | JBool b => b
  | JNum n => negb (n =? 0)%Z
  | JStr s => negb (String.eqb s EmptyString)
  | JArr _ | JObj _ => true
  end.

(** [a || b] on possibly undefined values of type [any]. *)
Definition js_or (a b : option JsValue) : option JsValue :=
  match a with
  | Some v => if truthy v then a else b
  | None => b
  end.

(** [a || b] where [a] is a possibly undefined string and [b] a string. *)
Definition str_or (a : option string) (b : string) : string :=
  match a with
  | Some s => if String.eqb s EmptyString then b else s
  | None => b
  end.

(** String coercion of a possibly undefined string, as in
    [undefined + '_'] = ['undefined_']. *)
Definition to_js_string (a : option string) : string :=
  match a with
  | Some s => s
  | None => "undefined"
  end.

(** ** String primitives used by the decoder *)

Definition newline : ascii := Ascii.ascii_of_nat 10.

(** [s.split(sep)] for a one-character separator: never empty. *)
Fixpoint split (sep : ascii) (s : string) : list string :=
  match s with
  | EmptyString => [EmptyString]
  | String c s' =>
      if Ascii.eqb c sep then EmptyString :: split sep s'
      else match split sep s' with
           | l :: ls => String c l :: ls
           | [] => [String c EmptyString]
           end
  end.

(** [s.startsWith(p)] *)
Definition startsWith (p s : string) : bool := String.prefix p s.

(** [s.slice(n)] for [n >= 0] *)
Fixpoint slice (n : nat) (s : string) : string :=
  match n, s with
  | O, _ => s
  | S n', String _ s' => slice n' s'
  | S _, EmptyString => EmptyString
  end.

(** ** Event model (types/agent.ts) *)

Inductive StreamingEventType : Type :=
| start
| content
| tool_call
| tool_response
| tool_result
| thinking
| error
| complete
| metadata.

#[global] Instance StreamingEventType_eq_dec : EqDecision StreamingEventType.
Proof. solve_decision. Defined.

(** [StreamingMetadata]: every field is optional.  The fields the hook reads
    are typed as declared; the remaining declared fields ([event_count],
    [chunk_size], ..., [total_events], ...) are only ever copied and are
    kept by name in [md_rest]. *)
Record StreamingMetadata : Type := {
  md_tool_name : option string;
  md_tool_args : option JsValue;
  md_call_id : option string;
  md_response_id : option string;
  md_tool_result : option JsValue;
  md_raw_response : option JsValue;
  md_rest : gmap string JsValue
}.

Record StreamingEvent : Type := {
  ev_type : StreamingEventType;
  ev_content : string;
  ev_metadata : StreamingMetadata;
  ev_timestamp : Z;
  ev_session_id : option string;
  ev_agent_id : option string
}.

Inductive MessageType : Type := user | assistant | system.

#[global] Instance MessageType_eq_dec : EqDecision MessageType.
Proof. solve_decision. Defined.

Record ChatMessage : Type := {
  msg_id : string;
  msg_type : MessageType;
  msg_content : string;
  msg_timestamp : Z;
  msg_metadata : option (gmap string JsValue);
  msg_streaming : option bool;
  msg_events : option (list StreamingEvent)
}.

(** The status ['error'] is [errored] here, and the state's field [error]
    is [error_]: [error] is the event kind. *)
Inductive ToolStatus : Type := pending | running | completed | errored.

#[global] Instance ToolStatus_eq_dec : EqDecision ToolStatus.
Proof. solve_decision. Defined.

Record ToolCall : Type := {
  tc_id : string;
  tc_name : string;
  tc_args : JsValue;
  tc_timestamp : Z;
  tc_status : ToolStatus;
  tc_result : option JsValue;
  tc_error : option string;
  tc_duration : option Z
}.

Record ConversationState : Type := {
  messages : list ChatMessage;
  isLoading : bool;
  isStreaming : bool;
  currentAgent : string;
  error_ : option string;
  toolCalls : list ToolCall;
  streamingEvents : list StreamingEvent
}.

(** ** Environment *)

(** What a thrown value looks like to [error instanceof Error]. *)
Inductive Exn : Type :=
| ErrorObject (message : string)
| NonError.

Record Env : Type := {
  (** the [k]-th reading of the clock ([Date.now()], [new Date()]) that
      the hook's own code makes *)
  date_now : nat -> Z;
  (** the [k]-th reading of the clock made inside a state updater: React
      runs an updater when it next renders, not where [setState] is
      called, so these readings are a sequence of their own *)
  updater_now : nat -> Z;
  (** the [k]-th [Math.random().toString(36).substr(2, 9)] *)
  math_random : nat -> string;
  (** [JSON.parse] on the payloads the hook is served, [None] when it
      throws; the hook takes what it returns at the declared type, as
      [const event: StreamingEvent = JSON.parse(data)] does *)
  json_parse : string -> option StreamingEvent;
  (** message of the [AbortError] a fetch rejects with *)
  abort_message : string
}.

(** ** Frame decoder: [StreamingService.streamAgent] *)

Definition DATA_PREFIX : string := "data: ".
Definition DONE : string := "[DONE]".

(** How the response body ends once its chunks are consumed. *)
Inductive BodyEnd : Type :=
| Closed
| Broken (e : Exn).

(** What the server side does with the streaming request. *)
Inductive Network : Type :=
| ConnectFails (e : Exn)
| HttpNotOk (errorData statusText : string)
| NoBody
| Streams (chunks : list string) (ending : BodyEnd).

(** How a call of the callback ends: it returns, or it throws.  Either
    way [st] is what its closure holds afterwards: what the callback did
    before it threw is done. *)
Inductive Called (S : Type) : Type :=
| Returns (st : S)
| Throws (st : S).

Arguments Returns {S} st.
Arguments Throws {S} st.

Definition after_call {S : Type} (r : Called S) : S :=
  match r with
  | Returns st => st
  | Throws st => st
  end.

(** A callback that never throws. *)
Definition returning {E S : Type} (f : E -> S -> S) (event : E) (st : S) : Called S :=
  Returns (f event st).

Section Decoder.
Context (env : Env).
(** The decoder never looks into what [JSON.parse] returns: it hands the
    value to the callback as it is, so it is generic in the type [E] of
    these values as well as in what the callback does ([S] is whatever
    the callback's closure can change).  [JSON_parse] is [None] where
    [JSON.parse] throws. *)
Context {E S : Type} (JSON_parse : string -> option E) (onEvent : E -> S -> Called S).

(** Result of the [for (const line of lines)] loop: it runs to its end or
    leaves the function at the sentinel.  The [try] encloses both
    [JSON.parse] and the call of the callback: whichever throws, the
    [catch] spends one [console.warn] with the payload and the loop goes
    on. *)
Inductive Lines : Type :=
| LinesEnd (st : S) (warnings : list string)
| LinesReturn (st : S) (warnings : list string).

Fixpoint for_lines (lines : list string) (st : S) (warnings : list string) : Lines :=
  match lines with
  | [] => LinesEnd st warnings
  | line :: rest =>
      if startsWith DATA_PREFIX line then
        let data := slice 6 line in
        if String.eqb data DONE then LinesReturn st warnings
        else match JSON_parse data with
             | Some event =>
                 match onEvent event st with
                 | Returns st => for_lines rest st warnings
                 | Throws st => for_lines rest st (warnings ++ [data])
                 end
             | None => for_lines rest st (warnings ++ [data])
             end
      else for_lines rest st warnings
  end.

(** Body of the [while] loop after a successful [reader.read()] that
    delivered [value] (already decoded to text: the [TextDecoder] runs in
    streaming mode). *)
Inductive Chunk : Type :=
| ChunkNext (buffer : string) (st : S) (warnings : list string)
| ChunkReturn (st : S) (warnings : list string).

Definition on_chunk (buffer value : string) (st : S) (warnings : list string) : Chunk :=
  let buffer := buffer +:+ value in
  let lines := split newline buffer in
  (* buffer = lines.pop() || '' *)
  let buffer := default EmptyString (last lines) in
  let lines := removelast lines in
  match for_lines lines st warnings with
  | LinesEnd st warnings => ChunkNext buffer st warnings
  | LinesReturn st warnings => ChunkReturn st warnings
  end.

(** How a call of [streamAgent] ends: by the [return] at the sentinel,
    by the [break] at end of stream, or by an exception. *)
Inductive Completion : Type :=
| BySentinel
| ByClose
| Threw (e : Exn).

Record Outcome : Type := {
  completion : Completion;
  final : S;
  warned : list string
}.

(** The [while (true)] loop, run without interruption.  [aborted] is the
    state of the abort signal, which makes [reader.read()] reject. *)
Fixpoint read_loop (aborted : bool) (chunks : list string) (ending : BodyEnd)
    (buffer : string) (st : S) (warnings : list string) : Outcome :=
  if aborted then
    {| completion := Threw (ErrorObject (abort_message env)); final := st; warned := warnings |}
  else
    match chunks with
    | [] =>
        match ending with
        | Closed => {| completion := ByClose; final := st; warned := warnings |}
        | Broken e => {| completion := Threw e; final := st; warned := warnings |}
        end
    | value :: chunks =>
        match on_chunk buffer value st warnings with
        | ChunkNext buffer st warnings => read_loop aborted chunks ending buffer st warnings
        | ChunkReturn st warnings =>
            {| completion := BySentinel; final := st; warned := warnings |}
        end
    end.

(** What [streamAgent] throws before it reads the body, if anything: the
    rejection of [fetch] (also on abort), the [Error] built from the text
    of a response that is not ok, or the [Error] for a missing body. *)
Definition fetch_failure (aborted : bool) (net : Network) : option Exn :=
  if aborted then Some (ErrorObject (abort_message env))
  else match net with
       | ConnectFails e => Some e
       | HttpNotOk errorData statusText =>
           Some (ErrorObject
                   (if String.eqb errorData EmptyString then "Failed to stream agent: " +:+ statusText
                    else errorData))
       | NoBody => Some (ErrorObject "Failed to get response reader")
       | Streams _ _ => None
       end.

Definition streamAgent (aborted : bool) (net : Network) (st : S) : Outcome :=
  match fetch_failure aborted net with
  | Some e => {| completion := Threw e; final := st; warned := [] |}
  | None =>
      match net with
      | Streams chunks ending => read_loop aborted chunks ending EmptyString st []
      | _ => {| completion := ByClose; final := st; warned := [] |}
      end
  end.

End Decoder.

Arguments Lines : clear implicits.
Arguments Chunk : clear implicits.
Arguments Outcome : clear implicits.
Arguments LinesEnd {S} st warnings.
Arguments LinesReturn {S} st warnings.
Arguments ChunkNext {S} buffer st warnings.
Arguments ChunkReturn {S} st warnings.
Arguments Build_Outcome {S} completion final warned.
Arguments completion {S} o.
Arguments final {S} o.
Arguments warned {S} o.

(** ** The hook: [useAgentChat] *)

(** Everything the hook's callbacks can read or change: the React state,
    the [abortControllerRef] with the controllers it has pointed to (an
    [AbortController] is shared between the ref and the request it was
    handed to, so the [aborted] flags live in a store and are referred to
    by index), and the number of clock readings and random draws made so
    far.  The console is not part of it: the decoder's warnings are an
    output of the decoder ([warned]), and nothing reads the hook's
    [console.log] lines. *)
Record Hook : Type := {
  state : ConversationState;
  abortControllerRef : option nat;
  controllers : list bool;
  clock_reads : nat;
  random_draws : nat;
  updater_reads : nat
}.

(** [useState({...})] and [useRef(null)] on first render. *)
Definition useAgentChat (agentId : string) : Hook :=
  {| state := {| messages := []; isLoading := false; isStreaming := false;
                 currentAgent := agentId; error_ := None; toolCalls := [];
                 streamingEvents := [] |};
     abortControllerRef := None; controllers := [];
     clock_reads := 0; random_draws := 0; updater_reads := 0 |}.

Definition setState (f : ConversationState -> ConversationState) (h : Hook) : Hook :=
  {| state := f (state h); abortControllerRef := abortControllerRef h;
     controllers := controllers h; clock_reads := clock_reads h;
     random_draws := random_draws h; updater_reads := updater_reads h |}.

(** [{...prev, field: value}] for each field that is ever overwritten. *)
Definition set_messages (v : list ChatMessage) (prev : ConversationState) : ConversationState :=
  {| messages := v; isLoading := isLoading prev; isStreaming := isStreaming prev;
     currentAgent := currentAgent prev; error_ := error_ prev;
     toolCalls := toolCalls prev; streamingEvents := streamingEvents prev |}.

Definition set_isLoading (v : bool) (prev : ConversationState) : ConversationState :=
  {| messages := messages prev; isLoading := v; isStreaming := isStreaming prev;
     currentAgent := currentAgent prev; error_ := error_ prev;
     toolCalls := toolCalls prev; streamingEvents := streamingEvents prev |}.

Definition set_isStreaming (v : bool) (prev : ConversationState) : ConversationState :=
  {| messages := messages prev; isLoading := isLoading prev; isStreaming := v;
     currentAgent := currentAgent prev; error_ := error_ prev;
     toolCalls := toolCalls prev; streamingEvents := streamingEvents prev |}.

Definition set_error (v : option string) (prev : ConversationState) : ConversationState :=
  {| messages := messages prev; isLoading := isLoading prev; isStreaming := isStreaming prev;
     currentAgent := currentAgent prev; error_ := v;
     toolCalls := toolCalls prev; streamingEvents := streamingEvents prev |}.

Definition set_toolCalls (v : list ToolCall) (prev : ConversationState) : ConversationState :=
  {| messages := messages prev; isLoading := isLoading prev; isStreaming := isStreaming prev;
     currentAgent := currentAgent prev; error_ := error_ prev;
     toolCalls := v; streamingEvents := streamingEvents prev |}.

Definition set_streamingEvents (v : list StreamingEvent) (prev : ConversationState) : ConversationState :=
  {| messages := messages prev; isLoading := isLoading prev; isStreaming := isStreaming prev;
     currentAgent := currentAgent prev; error_ := error_ prev;
     toolCalls := toolCalls prev; streamingEvents := v |}.

(** [Omit<ChatMessage, 'id' | 'timestamp'>] *)
Record NewMessage : Type := {
  nm_type : MessageType;
  nm_content : string;
  nm_metadata : option (gmap string JsValue);
  nm_streaming : option bool;
  nm_events : option (list StreamingEvent)
}.

(** [Partial<ChatMessage>]: [None] is an absent key. *)
Record MessageUpdates : Type := {
  up_id : option string;
  up_type : option MessageType;
  up_content : option string;
  up_timestamp : option Z;
  up_metadata : option (gmap string JsValue);
  up_streaming : option bool;
  up_events : option (list StreamingEvent)
}.

(** [{ ...msg, ...updates }] *)
Definition spread_message (msg : ChatMessage) (updates : MessageUpdates) : ChatMessage :=
  {| msg_id := default (msg_id msg) (up_id updates);
     msg_type := default (msg_type msg) (up_type updates);
     msg_content := default (msg_content msg) (up_content updates);
     msg_timestamp := default (msg_timestamp msg) (up_timestamp updates);
     msg_metadata := match up_metadata updates with Some m => Some m | None => msg_metadata msg end;
     msg_streaming := match up_streaming updates with Some b => Some b | None => msg_streaming msg end;
     msg_events := match up_events updates with Some l => Some l | None => msg_events msg end |}.

(** [Omit<ToolCall, 'id' | 'timestamp'>] *)
Record NewToolCall : Type := {
  nt_name : string;
  nt_args : JsValue;
  nt_status : ToolStatus;
  nt_result : option JsValue;
  nt_error : option string;
  nt_duration : option Z
}.

(** [Partial<ToolCall>] *)
Record ToolCallUpdates : Type := {
  ut_id : option string;
  ut_name : option string;
  ut_args : option JsValue;
  ut_timestamp : option Z;
  ut_status : option ToolStatus;
  ut_result : option JsValue;
  ut_error : option string;
  ut_duration : option Z
}.

Definition spread_toolCall (call : ToolCall) (updates : ToolCallUpdates) : ToolCall :=
  {| tc_id := default (tc_id call) (ut_id updates);
     tc_name := default (tc_name call) (ut_name updates);
     tc_args := default (tc_args call) (ut_args updates);
     tc_timestamp := default (tc_timestamp call) (ut_timestamp updates);
     tc_status := default (tc_status call) (ut_status updates);
     tc_result := match ut_result updates with Some r => Some r | None => tc_result call end;
     tc_error := match ut_error updates with Some e => Some e | None => tc_error call end;
     tc_duration := match ut_duration updates with Some d => Some d | None => tc_duration call end |}.

(** The closure of the callback that [handleStreamingResponse] hands to
    [streamAgent]: its three captured locals. *)
Record Closure : Type := {
  assistantMessageId : string;
  fullContent : string;
  events : list StreamingEvent
}.

(** [{ ...event.metadata }] as a [Record<string, any>] *)
Definition spread_metadata (md : StreamingMetadata) : gmap string JsValue :=
  let put (k : string) (v : option JsValue) (m : gmap string JsValue) :=
    match v with Some x => <[k := x]> m | None => m end in
  put "tool_name" (JStr <$> md_tool_name md)
    (put "tool_args" (md_tool_args md)
      (put "call_id" (JStr <$> md_call_id md)
        (put "response_id" (JStr <$> md_response_id md)
          (put "tool_result" (md_tool_result md)
            (put "raw_response" (md_raw_response md) (md_rest md)))))).

Section Hook.
Context (env : Env).

(** [Date.now()] and [new Date()]: the next clock reading. *)
Definition Date_now (h : Hook) : Z * Hook :=
  (date_now env (clock_reads h),
   {| state := state h; abortControllerRef := abortControllerRef h;
      controllers := controllers h; clock_reads := S (clock_reads h);
      random_draws := random_draws h; updater_reads := updater_reads h |}).

(** [Math.random().toString(36).substr(2, 9)] *)
Definition Math_random (h : Hook) : string * Hook :=
  (math_random env (random_draws h),
   {| state := state h; abortControllerRef := abortControllerRef h;
      controllers := controllers h; clock_reads := clock_reads h;
      random_draws := S (random_draws h); updater_reads := updater_reads h |}).

Definition addMessage (message : NewMessage) (h : Hook) : string * Hook :=
  let '(now, h) := Date_now h in
  let '(rnd, h) := Math_random h in
  let '(date, h) := Date_now h in
  let newMessage :=
    {| msg_id := pretty now +:+ "-" +:+ rnd;
       msg_type := nm_type message;
       msg_content := nm_content message;
       msg_timestamp := date;
       msg_metadata := nm_metadata message;
       msg_streaming := nm_streaming message;
       msg_events := nm_events message |} in
  (msg_id newMessage,
   setState (fun prev => set_messages (messages prev ++ [newMessage]) prev) h).

Definition updateMessage (messageId : string) (updates : MessageUpdates) (h : Hook) : Hook :=
  setState (fun prev =>
    set_messages
      (map (fun msg => if String.eqb (msg_id msg) messageId
                       then spread_message msg updates else msg)
           (messages prev))
      prev) h.

Definition addToolCall (toolCall : NewToolCall) (h : Hook) : string * Hook :=
  let '(now, h) := Date_now h in
  let '(rnd, h) := Math_random h in
  let '(date, h) := Date_now h in
  let newToolCall :=
    {| tc_id := pretty now +:+ "-" +:+ rnd;
       tc_name := nt_name toolCall;
       tc_args := nt_args toolCall;
       tc_timestamp := date;
       tc_status := nt_status toolCall;
       tc_result := nt_result toolCall;
       tc_error := nt_error toolCall;
       tc_duration := nt_duration toolCall |} in
  (tc_id newToolCall,
   setState (fun prev => set_toolCalls (toolCalls prev ++ [newToolCall]) prev) h).

Definition updateToolCall (toolCallId : string) (updates : ToolCallUpdates) (h : Hook) : Hook :=
  setState (fun prev =>
    set_toolCalls
      (map (fun call => if String.eqb (tc_id call) toolCallId
                        then spread_toolCall call updates else call)
           (toolCalls prev))
      prev) h.

(** The [prev.toolCalls.map(call => ...)] of the [tool_response] case.
    [Date.now()] sits inside the callback of [map], inside the updater:
    the clock is read once for every call that matches, when React runs
    the updater; [reads] is the number of such readings so far. *)
Fixpoint complete_matching (toolName : option string) (result : option JsValue)
    (calls : list ToolCall) (reads : nat) : list ToolCall * nat :=
  match calls with
  | [] => ([], reads)
  | call :: rest =>
      if match toolName with
         | Some n => String.eqb (tc_name call) n
         | None => false
         end && bool_decide (tc_status call = running)
      then
        let call' :=
          {| tc_id := tc_id call; tc_name := tc_name call; tc_args := tc_args call;
             tc_timestamp := tc_timestamp call;
             tc_status := completed;
             tc_result := result;
             tc_error := tc_error call;
             tc_duration := Some (updater_now env reads - tc_timestamp call)%Z |} in
        let '(rest', reads') := complete_matching toolName result rest (S reads) in
        (call' :: rest', reads')
      else
        let '(rest', reads') := complete_matching toolName result rest reads in
        (call :: rest', reads')
  end.

(** The [prev.toolCalls.map(call => ...)] of the [error] case. *)
Definition fail_running (message : string) (calls : list ToolCall) : list ToolCall :=
  map (fun call =>
         if bool_decide (tc_status call = running)
         then {| tc_id := tc_id call; tc_name := tc_name call; tc_args := tc_args call;
                 tc_timestamp := tc_timestamp call;
                 tc_status := errored;
                 tc_result := tc_result call;
                 tc_error := Some message;
                 tc_duration := tc_duration call |}
         else call)
      calls.

(** [{ content: fullContent, events: [...events] }] *)
Definition content_updates (fullContent : string) (events : list StreamingEvent)
    : MessageUpdates :=
  {| up_id := None; up_type := None;
     up_content := Some fullContent;
     up_timestamp := None; up_metadata := None; up_streaming := None;
     up_events := Some events |}.

(** [{ streaming: false, metadata: { ...event.metadata, total_events: events.length } }] *)
Definition complete_updates (md : StreamingMetadata) (total_events : nat)
    : MessageUpdates :=
  {| up_id := None; up_type := None; up_content := None;
     up_timestamp := None;
     up_metadata :=
       Some (<["total_events" := JNum (Z.of_nat total_events)]> (spread_metadata md));
     up_streaming := Some false;
     up_events := None |}.

(** The callback [(event) => { ... }] of [handleStreamingResponse], on an
    event of the declared type.  [metadata] is a required field there, so
    no statement of the callback throws: the decoder is handed it as a
    callback that returns. *)
Definition onEvent (event : StreamingEvent) (ch : Closure * Hook) : Closure * Hook :=
  let '(c, h) := ch in
  (* events.push(event) *)
  let c := {| assistantMessageId := assistantMessageId c; fullContent := fullContent c;
              events := events c ++ [event] |} in
  let h := setState (fun prev => set_streamingEvents (streamingEvents prev ++ [event]) prev) h in
  match ev_type event with
  | content =>
      let c := {| assistantMessageId := assistantMessageId c;
                  fullContent := fullContent c +:+ ev_content event;
                  events := events c |} in
      (c, updateMessage (assistantMessageId c)
            (content_updates (fullContent c) (events c)) h)
  | tool_call =>
      let md := ev_metadata event in
      (* const callId = call_id || tool_name + '_' + Date.now(), never used *)
      let '(callId, h) :=
        match md_call_id md with
        | Some id =>
            if String.eqb id EmptyString
            then let '(now, h) := Date_now h in
                 (to_js_string (md_tool_name md) +:+ "_" +:+ pretty now, h)
            else (id, h)
        | None =>
            let '(now, h) := Date_now h in
            (to_js_string (md_tool_name md) +:+ "_" +:+ pretty now, h)
        end in
      let '(_, h) :=
        addToolCall
          {| nt_name := str_or (md_tool_name md) "unknown";
             nt_args := default (JObj []) (js_or (md_tool_args md) (Some (JObj [])));
             nt_status := running;
             nt_result := None; nt_error := None; nt_duration := None |} h in
      (c, h)
  | tool_response =>
      let md := ev_metadata event in
      (* const responseId = event.metadata.response_id, never used *)
      let responseId := md_response_id md in
      let toolName := md_tool_name md in
      let '(calls, reads) :=
        complete_matching toolName
          (js_or (md_raw_response md) (md_tool_result md))
          (toolCalls (state h)) (updater_reads h) in
      (c, {| state := set_toolCalls calls (state h);
             abortControllerRef := abortControllerRef h;
             controllers := controllers h; clock_reads := clock_reads h;
             random_draws := random_draws h; updater_reads := reads |})
  | error =>
      (c, setState (fun prev =>
             set_toolCalls (fail_running (ev_content event) (toolCalls prev))
               (set_error (Some (ev_content event)) prev)) h)
  | complete =>
      (c, updateMessage (assistantMessageId c)
            (complete_updates (ev_metadata event) (length (events c))) h)
  | start | tool_result | thinking | metadata => (c, h)
  end.

(** *** [sendMessage] *)

(** What [agentService.callAgent] does with the non-streaming request. *)
Inductive SyncReply : Type :=
| ReplyOk (response agent_id status : string)
| ReplyFails (e : Exn).

(** The server side as seen by one call of [sendMessage]. *)
Record Server : Type := {
  stream_endpoint : Network;
  agent_endpoint : SyncReply
}.

(** [signal.aborted] of the controller with index [signal] *)
Definition aborted (signal : nat) (h : Hook) : bool :=
  default false (controllers h !! signal).

(** [abortControllerRef.current = new AbortController()] *)
Definition new_AbortController (h : Hook) : nat * Hook :=
  (length (controllers h),
   {| state := state h; abortControllerRef := Some (length (controllers h));
      controllers := controllers h ++ [false]; clock_reads := clock_reads h;
      random_draws := random_draws h; updater_reads := updater_reads h |}).

(** [error instanceof Error ? error.message : 'An error occurred'] *)
Definition errorMessage (e : Exn) : string :=
  match e with
  | ErrorObject message => message
  | NonError => "An error occurred"
  end.

(** The [catch (error) { ... }] block. *)
Definition sendMessage_catch (e : Exn) (h : Hook) : Hook :=
  setState (fun prev => set_error (Some (errorMessage e)) prev) h.

(** The [finally { ... }] block. *)
Definition sendMessage_finally (h : Hook) : Hook :=
  let h := setState (fun prev => set_isStreaming false (set_isLoading false prev)) h in
  {| state := state h; abortControllerRef := None;
     controllers := controllers h; clock_reads := clock_reads h;
     random_draws := random_draws h; updater_reads := updater_reads h |}.

(** End of the [try]: [thrown] is what the body threw, if anything. *)
Definition settle (thrown : option Exn) (h : Hook) : Hook :=
  match thrown with
  | Some e => sendMessage_finally (sendMessage_catch e h)
  | None => sendMessage_finally h
  end.

(** [sendMessage] up to its [try]: the user message, the reset of the
    flags and the new controller. *)
Definition sendMessage_prologue (content_ : string) (useStreaming : bool) (h : Hook) : nat * Hook :=
  let '(userMessageId, h) :=
    addMessage {| nm_type := user; nm_content := content_; nm_metadata := None;
                  nm_streaming := None; nm_events := None |} h in
  let h := setState (fun prev =>
             set_streamingEvents []
               (set_error None
                  (set_isStreaming useStreaming
                     (set_isLoading true prev)))) h in
  new_AbortController h.

(** [handleStreamingResponse] up to the call of [streamAgent]. *)
Definition handleStreamingResponse_open (h : Hook) : Closure * Hook :=
  let '(assistantMessageId, h) :=
    addMessage {| nm_type := assistant; nm_content := EmptyString; nm_metadata := None;
                  nm_streaming := Some true; nm_events := Some [] |} h in
  ({| assistantMessageId := assistantMessageId; fullContent := EmptyString; events := [] |}, h).

(** [handleStreamingResponse], run without interruption: what it throws,
    if anything, and the hook afterwards. *)
Definition handleStreamingResponse (signal : nat) (net : Network) (h : Hook) : option Exn * Hook :=
  let '(c, h) := handleStreamingResponse_open h in
  let o := streamAgent env (json_parse env) (returning onEvent) (aborted signal h) net (c, h) in
  (match completion o with Threw e => Some e | _ => None end, snd (final o)).

(** [handleSyncResponse], run without interruption. *)
Definition handleSyncResponse (signal : nat) (reply : SyncReply) (h : Hook) : option Exn * Hook :=
  if aborted signal h then (Some (ErrorObject (abort_message env)), h)
  else match reply with
       | ReplyOk response agent_id status =>
           let '(_, h) :=
             addMessage
               {| nm_type := assistant; nm_content := response;
                  nm_metadata := Some (<["agent_id" := JStr agent_id]>
                                         (<["status" := JStr status]> ∅));
                  nm_streaming := None; nm_events := None |} h in
           (None, h)
       | ReplyFails e => (Some e, h)
       end.

(** [sendMessage], run without interruption from call to settlement. *)
Definition sendMessage (content_ : string) (useStreaming : bool) (server : Server) (h : Hook) : Hook :=
  let '(signal, h) := sendMessage_prologue content_ useStreaming h in
  let '(thrown, h) :=
    if useStreaming then handleStreamingResponse signal (stream_endpoint server) h
    else handleSyncResponse signal (agent_endpoint server) h in
  settle thrown h.

(** [abortControllerRef.current.abort()] when the ref is set. *)
Definition stopStreaming (h : Hook) : Hook :=
  match abortControllerRef h with
  | Some signal =>
      {| state := state h; abortControllerRef := abortControllerRef h;
         controllers := <[signal := true]> (controllers h);
         clock_reads := clock_reads h; random_draws := random_draws h; updater_reads := updater_reads h |}
  | None => h
  end.

Definition clearConversation (h : Hook) : Hook :=
  setState (fun prev =>
    set_error None (set_streamingEvents [] (set_toolCalls [] (set_messages [] prev)))) h.

(** *** [sendMessage] cut at its [await]s *)

(** Where a call of [sendMessage] is suspended, with the locals that are
    live there and what the server will deliver. *)
Inductive Pending : Type :=
| AwaitFetch (c : Closure) (signal : nat) (net : Network)
| AwaitRead (c : Closure) (signal : nat) (buffer : string)
    (chunks : list string) (ending : BodyEnd)
| AwaitCallAgent (signal : nat) (reply : SyncReply).

(** The call itself: everything up to the first [await]. *)
Definition sendMessage_call (content_ : string) (useStreaming : bool) (server : Server)
    (h : Hook) : Pending * Hook :=
  let '(signal, h) := sendMessage_prologue content_ useStreaming h in
  if useStreaming then
    let '(c, h) := handleStreamingResponse_open h in
    (AwaitFetch c signal (stream_endpoint server), h)
  else (AwaitCallAgent signal (agent_endpoint server), h).

(** Run a suspended call up to its next [await]; [None] when the call has
    settled (its [finally] block has run).  The [await response.text()] of
    a response that is not ok is taken together with the [fetch] before
    it. *)
Definition resume (p : Pending) (h : Hook) : option Pending * Hook :=
  match p with
  | AwaitFetch c signal net =>
      match fetch_failure env (aborted signal h) net with
      | Some e => (None, settle (Some e) h)
      | None =>
          match net with
          | Streams chunks ending => (Some (AwaitRead c signal EmptyString chunks ending), h)
          | _ => (None, settle None h)
          end
      end
  | AwaitRead c signal buffer chunks ending =>
      if aborted signal h then (None, settle (Some (ErrorObject (abort_message env))) h)
      else
        match chunks with
        | [] =>
            match ending with
            | Closed => (None, settle None h)
            | Broken e => (None, settle (Some e) h)
            end
        | value :: chunks =>
            match on_chunk (json_parse env) (returning onEvent) buffer value (c, h) [] with
            | ChunkNext buffer (c, h) warnings =>
                (Some (AwaitRead c signal buffer chunks ending), h)
            | ChunkReturn (c, h) warnings =>
                (None, settle None h)
            end
        end
  | AwaitCallAgent signal reply =>
      let '(thrown, h) := handleSyncResponse signal reply h in
      (None, settle thrown h)
  end.

(** Resume at most [n] times. *)
Fixpoint resume_n (n : nat) (p : option Pending) (h : Hook) : option Pending * Hook :=
  match n, p with
  | S n, Some p => let '(p, h) := resume p h in resume_n n p h
  | _, _ => (p, h)
  end.

End Hook.

(** ** The tool panel: [ImprovedFloatingToolPanel] *)

(** The effect that turns [streamingEvents] and [toolCalls] into the rows
    the panel shows.  Its [Map] keeps insertion order, which decides the
    order of rows that start at the same time, so it is an association
    list with the operations of a [Map].  Event timestamps are in whole
    seconds, as the event model keeps them. *)

(** A number that may be [NaN]. *)
Inductive JsNumber : Type :=
| Num (n : Z)
| NaN.

(** A [Date] object: a time value in milliseconds, or an Invalid Date. *)
Inductive JsDate : Type :=
| ValidDate (ms : Z)
| InvalidDate.

(** [new Date(value)] for a whole number: the time value is clipped, a
    date more than 8.64e15 ms from the epoch is an Invalid Date. *)
Definition new_Date (value : Z) : JsDate :=
  if (Z.abs value <=? 8640000000000000)%Z then ValidDate value else InvalidDate.

(** [date.getTime()] *)
Definition getTime (date : JsDate) : JsNumber :=
  match date with
  | ValidDate ms => Num ms
  | InvalidDate => NaN
  end.

(** [a - b] *)
Definition js_minus (a b : JsNumber) : JsNumber :=
  match a, b with
  | Num x, Num y => Num (x - y)
  | _, _ => NaN
  end.

Record ProcessedToolExecution : Type := {
  px_id : string;
  px_name : string;
  px_args : JsValue;
  px_status : ToolStatus;
  px_startTime : option JsDate;
  px_endTime : option JsDate;
  px_duration : option JsNumber;
  px_result : option JsValue;
  px_error : option string;
  px_events : list StreamingEvent
}.

(** [map.get(key)] *)
Fixpoint map_get {V : Type} (key : string) (m : list (string * V)) : option V :=
  match m with
  | [] => None
  | (k, v) :: m => if String.eqb k key then Some v else map_get key m
  end.

(** [map.has(key)] *)
Definition map_has {V : Type} (key : string) (m : list (string * V)) : bool :=
  match map_get key m with
  | Some _ => true
  | None => false
  end.

(** [map.set(key, value)]: a key that is present keeps its place. *)
Fixpoint map_set {V : Type} (key : string) (value : V) (m : list (string * V))
    : list (string * V) :=
  match m with
  | [] => [(key, value)]
  | (k, v) :: m =>
      if String.eqb k key then (k, value) :: m else (k, v) :: map_set key value m
  end.

(** [Array.from(map.values())] *)
Definition map_values {V : Type} (m : list (string * V)) : list V := map snd m.

(** [new Date(event.timestamp * 1000)] *)
Definition event_date (event : StreamingEvent) : JsDate :=
  new_Date (ev_timestamp event * 1000).

(** [event.metadata.call_id || `${event.metadata.tool_name}_${event.timestamp}`] *)
Definition callKey (event : StreamingEvent) : string :=
  let md := ev_metadata event in
  match md_call_id md with
  | Some id =>
      if String.eqb id EmptyString
      then to_js_string (md_tool_name md) +:+ "_" +:+ pretty (ev_timestamp event)
      else id
  | None => to_js_string (md_tool_name md) +:+ "_" +:+ pretty (ev_timestamp event)
  end.

(** The row a [tool_call] event creates. *)
Definition new_execution (callId : string) (event : StreamingEvent) : ProcessedToolExecution :=
  let md := ev_metadata event in
  {| px_id := callId;
     px_name := str_or (md_tool_name md) "Unknown Tool";
     px_args := default (JObj []) (js_or (md_tool_args md) (Some (JObj [])));
     px_status := running;
     px_startTime := Some (event_date event);
     px_endTime := None; px_duration := None; px_result := None; px_error := None;
     px_events := [event] |}.

(** What a [tool_response] event does to the row it resolves to. *)
Definition complete_execution (event : StreamingEvent) (execution : ProcessedToolExecution)
    : ProcessedToolExecution :=
  let md := ev_metadata event in
  let endTime := event_date event in
  {| px_id := px_id execution;
     px_name := px_name execution;
     px_args := px_args execution;
     px_status := completed;
     px_startTime := px_startTime execution;
     px_endTime := Some endTime;
     (* an Invalid Date is an object, hence truthy *)
     px_duration := match px_startTime execution with
                    | Some startTime => Some (js_minus (getTime endTime) (getTime startTime))
                    | None => px_duration execution
                    end;
     px_result := js_or (md_raw_response md) (md_tool_result md);
     px_error := px_error execution;
     px_events := px_events execution ++ [event] |}.

(** The body of [streamingEvents.forEach((event) => { ... })]. *)
Definition on_streaming_event (event : StreamingEvent)
    (executionMap : list (string * ProcessedToolExecution))
    : list (string * ProcessedToolExecution) :=
  match ev_type event with
  | tool_call =>
      let callId := callKey event in
      if map_has callId executionMap then executionMap
      else map_set callId (new_execution callId event) executionMap
  | tool_response =>
      match md_response_id (ev_metadata event) with
      | Some responseId =>
          if String.eqb responseId EmptyString then executionMap
          else match map_get responseId executionMap with
               | Some execution =>
                   map_set responseId (complete_execution event execution) executionMap
               | None => executionMap
               end
      | None => executionMap
      end
  | _ => executionMap
  end.

(** The body of [toolCalls.forEach((toolCall) => { ... })].  The time
    stamp of a tool call comes from [new Date()], which is a valid date. *)
Definition on_tool_call (toolCall : ToolCall)
    (executionMap : list (string * ProcessedToolExecution))
    : list (string * ProcessedToolExecution) :=
  if existsb (fun exec => String.eqb (px_name exec) (tc_name toolCall))
       (map_values executionMap)
  then executionMap
  else map_set (tc_id toolCall)
         {| px_id := tc_id toolCall;
            px_name := tc_name toolCall;
            px_args := tc_args toolCall;
            px_status := tc_status toolCall;
            px_startTime := Some (ValidDate (tc_timestamp toolCall));
            px_endTime := None;
            px_duration := Num <$> tc_duration toolCall;
            px_result := tc_result toolCall;
            px_error := tc_error toolCall;
            px_events := [] |}
         executionMap.

(** [a.startTime?.getTime() || 0]: [undefined] and [NaN] are falsy. *)
Definition start_key (execution : ProcessedToolExecution) : Z :=
  match px_startTime execution with
  | Some (ValidDate ms) => ms
  | Some InvalidDate | None => 0%Z
  end.

(** [rows.sort((a, b) => key(a) - key(b))]: the sort is stable, so a row
    goes after every row whose key is not greater than its own. *)
Fixpoint insert_by_start (x : ProcessedToolExecution) (sorted : list ProcessedToolExecution)
    : list ProcessedToolExecution :=
  match sorted with
  | [] => [x]
  | y :: rest =>
      if (start_key x <? start_key y)%Z then x :: y :: rest
      else y :: insert_by_start x rest
  end.

Definition sort_by_start (rows : list ProcessedToolExecution) : list ProcessedToolExecution :=
  fold_left (fun sorted x => insert_by_start x sorted) rows [].

(** The map after the loop over the streaming events. *)
Definition events_map (streamingEvents_ : list StreamingEvent)
    : list (string * ProcessedToolExecution) :=
  fold_left (fun m event => on_streaming_event event m) streamingEvents_ [].

(** The rows the effect stores with [setProcessedExecutions]. *)
Definition processedExecutions (toolCalls_ : list ToolCall)
    (streamingEvents_ : list StreamingEvent) : list ProcessedToolExecution :=
  let executionMap := events_map streamingEvents_ in
  let executionMap := fold_left (fun m toolCall => on_tool_call toolCall m) toolCalls_ executionMap in
  sort_by_start (map_values executionMap).

(** ** The events log: [EventsLog] *)

(** [length] and [slice] count the UTF-16 code units of a string.  The
    model holds a string as the bytes of its UTF-8 encoding, and
    [code_units] gives the code units of such a text: one for a
    character of one, two or three bytes, a surrogate pair for a
    character of four bytes.  (On bytes that are not UTF-8 text its value
    is of no interest.) *)
Definition low_bits (mask : N) (c : ascii) : N := N.land (N_of_ascii c) mask.

Fixpoint code_units (s : string) : list N :=
  match s with
  | EmptyString => []
  | String c0 s1 =>
      if (N_of_ascii c0 <? 128)%N then N_of_ascii c0 :: code_units s1
      else if (N_of_ascii c0 <? 224)%N then
        match s1 with
        | String c1 s2 =>
            (low_bits 31 c0 * 64 + low_bits 63 c1)%N :: code_units s2
        | _ => [65533%N]
        end
      else if (N_of_ascii c0 <? 240)%N then
        match s1 with
        | String c1 (String c2 s3) =>
            (low_bits 15 c0 * 4096 + low_bits 63 c1 * 64 + low_bits 63 c2)%N
            :: code_units s3
        | _ => [65533%N]
        end
      else
        match s1 with
        | String c1 (String c2 (String c3 s4)) =>
            let code_point :=
              (low_bits 7 c0 * 262144 + low_bits 63 c1 * 4096
               + low_bits 63 c2 * 64 + low_bits 63 c3)%N in
            (55296 + (code_point - 65536) / 1024)%N
            :: (56320 + (code_point - 65536) mod 1024)%N
            :: code_units s4
        | _ => [65533%N]
        end
  end.

(** The string that [formatEventContent] returns, by its code units:
    [slice(0, 50)] may cut a surrogate pair, and what it then returns is
    not the encoding of a text. *)
Definition formatEventContent (event : StreamingEvent) : list N :=
  match ev_type event with
  | content =>
      code_units ("+" +:+ pretty (length (code_units (ev_content event))) +:+ " chars")
  | tool_call => code_units (str_or (md_tool_name (ev_metadata event)) "Unknown tool")
  | tool_response =>
      code_units (str_or (md_tool_name (ev_metadata event)) "Tool" +:+ " completed")
  | _ =>
      let units := code_units (ev_content event) in
      take 50 units ++ (if (50 <? length units)%nat then code_units "..." else [])
  end.

(** * Vocabulary of the properties *)

(** ** Lines of a chunked text *)

Fixpoint newline_free (s : string) : bool :=
  match s with
  | EmptyString => true
  | String c s' => negb (Ascii.eqb c newline) && newline_free s'
  end.

(** The text received so far: the chunks, joined. *)
Definition received (chunks : list string) : string :=
  foldr String.append EmptyString chunks.

(** The lines of a text that are terminated by a newline. *)
Definition terminated_lines (text : string) : list string :=
  removelast (split newline text).

(** The text after the last newline. *)
Definition unterminated (text : string) : string :=
  default EmptyString (last (split newline text)).

(** How a run over the terminated lines of the whole body ends. *)
Definition outcome_of_lines {S : Type} (ending : BodyEnd) (r : Lines S) : Outcome S :=
  match r with
  | LinesEnd st warnings =>
      {| completion := match ending with Closed => ByClose | Broken e => Threw e end;
         final := st; warned := warnings |}
  | LinesReturn st warnings =>
      {| completion := BySentinel; final := st; warned := warnings |}
  end.

(** What the loop over the lines hands on, without the warnings. *)
Definition lines_result {S : Type} (r : Lines S) : bool * S :=
  match r with
  | LinesEnd st _ => (false, st)
  | LinesReturn st _ => (true, st)
  end.

Definition map_lines {A B : Type} (g : A -> B) (r : Lines A) : Lines B :=
  match r with
  | LinesEnd a warnings => LinesEnd (g a) warnings
  | LinesReturn a warnings => LinesReturn (g a) warnings
  end.

Definition map_outcome {A B : Type} (g : A -> B) (o : Outcome A) : Outcome B :=
  {| completion := completion o; final := g (final o); warned := warned o |}.

(** ** Events handed to the callback *)

(** The callback that only records the events it is handed. *)
Definition collect {E : Type} (event : E) (seen : list E) : list E :=
  seen ++ [event].

(** The events the decoder hands to its callback for a given server
    behaviour, in order. *)
Definition decode (env : Env) (net : Network) : list StreamingEvent :=
  final (streamAgent env (json_parse env) (returning collect) false net []).

(** The events of a turn applied in arrival order. *)
Definition apply_events (env : Env) (evs : list StreamingEvent) (ch : Closure * Hook)
    : Closure * Hook :=
  fold_left (fun s e => onEvent env e s) evs ch.

Definition thrown_of (k : Completion) : option Exn :=
  match k with
  | Threw e => Some e
  | _ => None
  end.

Ltac by_event_kind e :=
  unfold onEvent;
  destruct (ev_type e) eqn:?;
  repeat match goal with
    | |- context [md_call_id ?m] =>
        destruct (md_call_id m) as [?id|];
        [destruct (String.eqb id EmptyString)|]
    | |- context [complete_matching ?env ?n ?r ?l ?k] =>
        destruct (complete_matching env n r l k) as [?calls ?reads] eqn:?
    end;
  cbn.

(** ** The message of a turn *)

Definition is_content (e : StreamingEvent) : bool := bool_decide (ev_type e = content).

(** The [content] fields of a sequence of events, joined in order. *)
Definition concatenation (evs : list StreamingEvent) : string :=
  foldr (fun e acc => ev_content e +:+ acc) EmptyString evs.

(** What the [content] events among [evs] have accumulated. *)
Definition accumulated (evs : list StreamingEvent) : string :=
  concatenation (List.filter is_content evs).

(** The events up to and including the last [content] event. *)
Fixpoint through_last_content (evs : list StreamingEvent) : list StreamingEvent :=
  match evs with
  | [] => []
  | e :: rest =>
      if existsb is_content rest then e :: through_last_content rest
      else if is_content e then [e] else []
  end.

(** The message that a turn streams into, as it stands after [evs]. *)
Definition assistant_after (env : Env) (h : Hook) (evs : list StreamingEvent)
    : option ChatMessage :=
  last (messages (state (snd (apply_events env evs (handleStreamingResponse_open env h))))).

(** What the callback's closure and the state agree on while a turn runs:
    [seen] are the events applied so far, [earlier] the events that were in
    [streamingEvents] when the turn's message was created. *)
Definition turn_ok (earlier seen : list StreamingEvent) (ch : Closure * Hook) : Prop :=
  events (fst ch) = seen
  /\ fullContent (fst ch) = accumulated seen
  /\ streamingEvents (state (snd ch)) = earlier ++ seen
  /\ exists m, last (messages (state (snd ch))) = Some m
               /\ msg_id m = assistantMessageId (fst ch)
               /\ msg_type m = assistant
               /\ msg_content m = accumulated seen
               /\ msg_events m = Some (through_last_content seen).

(** ** Suspended calls *)

Definition opens_stream (p : Pending) : bool :=
  match p with
  | AwaitFetch _ _ _ => true
  | _ => false
  end.


(** The abort signal a suspended call was started with. *)
Definition signal_of (p : Pending) : nat :=
  match p with
  | AwaitFetch _ signal _ => signal
  | AwaitRead _ signal _ _ _ => signal
  | AwaitCallAgent signal _ => signal
  end.


(** ** The streaming flag *)

Definition streaming_assistant (m : ChatMessage) : bool :=
  bool_decide (msg_type m = assistant) && bool_decide (msg_streaming m = Some true).

(** No assistant message is marked as streaming. *)
Definition none_streaming (msgs : list ChatMessage) : bool :=
  forallb (fun m => negb (streaming_assistant m)) msgs.

(** Only the last message may be an assistant message marked as streaming:
    there is at most one, and it is the most recently appended message. *)
Definition single_streaming (msgs : list ChatMessage) : bool :=
  none_streaming (removelast msgs).

(** ** The table of tool calls *)

(** The test of the [tool_response] case: same name, still running. *)
Definition matches (name : string) (call : ToolCall) : bool :=
  String.eqb (tc_name call) name && bool_decide (tc_status call = running).

(** The clock readings spent on the unused [callId] of a [tool_call]. *)
Definition callId_reads (md : StreamingMetadata) : nat :=
  match md_call_id md with
  | Some id => if String.eqb id EmptyString then 1 else 0
  | None => 1
  end.

(** ** Replay *)

(** A turn's events applied to the state of a hook that has just been
    created: the turn's message is appended, then the events are applied
    in order. *)
Definition replay (env : Env) (agentId : string) (evs : list StreamingEvent)
    : ConversationState :=
  state (snd (apply_events env evs (handleStreamingResponse_open env (useAgentChat agentId)))).

(** A state without what the clock and the random source put into it: the
    generated ids, the timestamps and the measured durations. *)
Definition erase_message (m : ChatMessage) : ChatMessage :=
  {| msg_id := EmptyString; msg_type := msg_type m; msg_content := msg_content m;
     msg_timestamp := 0; msg_metadata := msg_metadata m;
     msg_streaming := msg_streaming m; msg_events := msg_events m |}.

Definition erase_toolCall (t : ToolCall) : ToolCall :=
  {| tc_id := EmptyString; tc_name := tc_name t; tc_args := tc_args t;
     tc_timestamp := 0; tc_status := tc_status t; tc_result := tc_result t;
     tc_error := tc_error t;
     tc_duration := match tc_duration t with Some _ => Some 0%Z | None => None end |}.

Definition erase_state (s : ConversationState) : ConversationState :=
  {| messages := map erase_message (messages s);
     isLoading := isLoading s; isStreaming := isStreaming s;
     currentAgent := currentAgent s; error_ := error_ s;
     toolCalls := map erase_toolCall (toolCalls s);
     streamingEvents := streamingEvents s |}.

(** Two runs of the same turn under different clocks and random sources:
    their closures hold the same text and events, their states agree once
    erased, and in each the turn's message is the only message. *)
Definition same_turn (ch1 ch2 : Closure * Hook) : Prop :=
  fullContent (fst ch1) = fullContent (fst ch2)
  /\ events (fst ch1) = events (fst ch2)
  /\ erase_state (state (snd ch1)) = erase_state (state (snd ch2))
  /\ (exists m, messages (state (snd ch1)) = [m] /\ msg_id m = assistantMessageId (fst ch1))
  /\ (exists m, messages (state (snd ch2)) = [m] /\ msg_id m = assistantMessageId (fst ch2)).

(** ** Tool calls, panel rows and payloads *)

(** The [tool_call] events among a sequence of events. *)
Definition tool_call_count (evs : list StreamingEvent) : nat :=
  length (List.filter (fun e => bool_decide (ev_type e = tool_call)) evs).

(** The content of the last [error] event among a sequence of events. *)
Definition last_error (evs : list StreamingEvent) : option string :=
  last (map ev_content (List.filter (fun e => bool_decide (ev_type e = error)) evs)).

Definition is_complete (e : StreamingEvent) : bool := bool_decide (ev_type e = complete).

(** [event] is a [tool_call] whose key is [key]. *)
Definition calls_key (key : string) (event : StreamingEvent) : bool :=
  bool_decide (ev_type event = tool_call) && String.eqb (callKey event) key.

(** [event] is a [tool_response] whose [response_id] is [key]. *)
Definition responds_to (key : string) (event : StreamingEvent) : bool :=
  bool_decide (ev_type event = tool_response)
  && match md_response_id (ev_metadata event) with
     | Some responseId => String.eqb responseId key
     | None => false
     end.

(** The row that the [tool_call] event [event] and the responses
    [responses], applied in order, give. *)
Definition row_of (event : StreamingEvent) (responses : list StreamingEvent)
    : ProcessedToolExecution :=
  fold_left (fun x r => complete_execution r x) responses
    (new_execution (callKey event) event).

(** The map after both loops of the effect. *)
Definition merged_map (toolCalls_ : list ToolCall) (streamingEvents_ : list StreamingEvent)
    : list (string * ProcessedToolExecution) :=
  fold_left (fun m toolCall => on_tool_call toolCall m) toolCalls_
    (events_map streamingEvents_).

Definition is_tool_call (e : StreamingEvent) : bool := bool_decide (ev_type e = tool_call).

(** The row sorts under the key [k]. *)
Definition starts_at (k : Z) (row : ProcessedToolExecution) : bool :=
  (start_key row =? k)%Z.

(** [event.metadata.tool_name] is a non-empty string. *)
Definition has_tool_name (e : StreamingEvent) : bool :=
  match md_tool_name (ev_metadata e) with
  | Some name => negb (String.eqb name EmptyString)
  | None => false
  end.

(** The row a tool call of the hook is given. *)
Definition row_of_tool_call (toolCall : ToolCall) : ProcessedToolExecution :=
  {| px_id := tc_id toolCall;
     px_name := tc_name toolCall;
     px_args := tc_args toolCall;
     px_status := tc_status toolCall;
     px_startTime := Some (ValidDate (tc_timestamp toolCall));
     px_endTime := None;
     px_duration := Num <$> tc_duration toolCall;
     px_result := tc_result toolCall;
     px_error := tc_error toolCall;
     px_events := [] |}.

(** The tool calls whose name is neither in [seen] nor the name of an
    earlier call of the list. *)
Fixpoint first_of_each_name (seen : list string) (tcs : list ToolCall) : list ToolCall :=
  match tcs with
  | [] => []
  | t :: tcs =>
      if existsb (fun name => String.eqb name (tc_name t)) seen
      then first_of_each_name seen tcs
      else t :: first_of_each_name (seen ++ [tc_name t]) tcs
  end.

(** The payloads of the [data: ] lines among [lines]. *)
Definition data_payloads (lines : list string) : list string :=
  map (slice 6) (List.filter (startsWith DATA_PREFIX) lines).

(** The payloads before the first sentinel. *)
Fixpoint until_sentinel (payloads : list string) : list string :=
  match payloads with
  | [] => []
  | p :: payloads => if String.eqb p DONE then [] else p :: until_sentinel payloads
  end.

(** The payloads on which [JSON.parse] throws. *)
Definition unparsable {E : Type} (JSON_parse : string -> option E) (payloads : list string)
    : list string :=
  List.filter (fun p => match JSON_parse p with Some _ => false | None => true end)
    payloads.

(** ** Values that are not events *)

Definition event_kinds : list string :=
  ["start"; "content"; "tool_call"; "tool_response"; "tool_result"; "thinking";
   "error"; "complete"; "metadata"].

(** [v] has the shape that types/agent.ts declares for a [StreamingEvent]:
    an object with a [type] among the declared kinds, a string [content],
    an object [metadata] and a number [timestamp]. *)
Definition has_event_shape (v : JsValue) : bool :=
  match v with
  | JObj fields =>
      match map_get "type" fields, map_get "content" fields,
            map_get "metadata" fields, map_get "timestamp" fields with
      | Some (JStr kind), Some (JStr _), Some (JObj _), Some (JNum _) =>
          existsb (String.eqb kind) event_kinds
      | _, _, _, _ => false
      end
  | _ => false
  end.

(** The first steps of the hook's callback, on any value: the value is
    pushed to [events], then [event.type] is read, which throws a
    [TypeError] on [null]. *)
Definition push_then_read_type (event : JsValue) (seen : list JsValue)
    : Called (list JsValue) :=
  match event with
  | JNull => Throws (seen ++ [event])
  | _ => Returns (seen ++ [event])
  end.

(** ** Closed instances used in examples *)

(** A [JSON.parse] that knows the payloads listed in [table] and throws on
    every other text. *)
Fixpoint parse_table {E : Type} (table : list (string * E)) (data : string)
    : option E :=
  match table with
  | [] => None
  | (text, event) :: table =>
      if String.eqb text data then Some event else parse_table table data
  end.

(** [JSON.parse] on three payloads that are valid JSON and no events. *)
Definition json_values : string -> option JsValue :=
  parse_table [("42", JNum 42); ("{}", JObj []); ("null", JNull)].

Definition no_metadata : StreamingMetadata :=
  {| md_tool_name := None; md_tool_args := None; md_call_id := None;
     md_response_id := None; md_tool_result := None; md_raw_response := None;
     md_rest := ∅ |}.

Definition event_of (kind : StreamingEventType) (text : string) (md : StreamingMetadata)
    : StreamingEvent :=
  {| ev_type := kind; ev_content := text; ev_metadata := md; ev_timestamp := 0;
     ev_session_id := None; ev_agent_id := None |}.

Definition tool_event (kind : StreamingEventType) (name call_id response_id : option string)
    (raw_response tool_result_ : option JsValue) : StreamingEvent :=
  event_of kind EmptyString
    {| md_tool_name := name; md_tool_args := None; md_call_id := call_id;
       md_response_id := response_id; md_tool_result := tool_result_;
       md_raw_response := raw_response; md_rest := ∅ |}.

(** A [tool_call] event of the tool [calc] with the given id and time
    stamp. *)
Definition lone_call (id : string) (timestamp : Z) : StreamingEvent :=
  {| ev_type := tool_call; ev_content := EmptyString;
     ev_metadata := {| md_tool_name := Some "calc"; md_tool_args := None;
                       md_call_id := Some id; md_response_id := None;
                       md_tool_result := None; md_raw_response := None;
                       md_rest := ∅ |};
     ev_timestamp := timestamp; ev_session_id := None; ev_agent_id := None |}.

(** A clock that advances by [step] ms per reading from [origin]. *)
Definition ticking (origin step : Z) (k : nat) : Z := (origin + step * Z.of_nat k)%Z.

(** An environment whose updaters read the same clock as the hook, four
    readings on. *)
Definition env_of (clock : nat -> Z) (table : list (string * StreamingEvent)) : Env :=
  {| date_now := clock;
     updater_now := fun k => clock (4 + k);
     math_random := fun k => "r" +:+ pretty k;
     json_parse := parse_table table;
     abort_message := "The user aborted a request." |}.

(** One frame of the transport: a [data: ] line with its newline. *)
Definition nl : string := String newline EmptyString.
Definition frame (payload : string) : string := DATA_PREFIX +:+ payload +:+ nl.

(** [quoted s] is [s] between double quotes; [payload kind text] is the
    JSON text of an event of that kind and content, with empty metadata
    and timestamp 0. *)
Definition quoted (s : string) : string :=
  String (Ascii.ascii_of_nat 34) (s +:+ String (Ascii.ascii_of_nat 34) EmptyString).

Definition payload (kind text : string) : string :=
  "{" +:+ quoted "type" +:+ ":" +:+ quoted kind +:+ ","
      +:+ quoted "content" +:+ ":" +:+ quoted text +:+ ","
      +:+ quoted "metadata" +:+ ":{},"
      +:+ quoted "timestamp" +:+ ":0}".

Definition sample_content : StreamingEvent := event_of content "ok" no_metadata.
Definition sample_complete : StreamingEvent := event_of complete EmptyString no_metadata.
Definition ok_payload : string := payload "content" "ok".
Definition complete_payload : string := payload "complete" EmptyString.

Definition hel_event : StreamingEvent := event_of content "Hel" no_metadata.

Definition sample_table : list (string * StreamingEvent) :=
  [(ok_payload, sample_content);
   (payload "content" "Hel", event_of content "Hel" no_metadata);
   (payload "content" "lo", event_of content "lo" no_metadata);
   (complete_payload, sample_complete)].

Definition sample_env : Env := env_of (ticking 1000 1) sample_table.

Definition server_of (net : Network) : Server :=
  {| stream_endpoint := net; agent_endpoint := ReplyFails NonError |}.



(** [n] copies of a text, one after the other. *)
Fixpoint copies (n : nat) (text : string) : string :=
  match n with
  | O => EmptyString
  | S n => text +:+ copies n text
  end.

(** The two bytes of U+00E9 (e with acute accent) and the four bytes of
    U+1F600 (a character outside the basic plane). *)
Definition e_acute : string :=
  String (Ascii.ascii_of_nat 195) (String (Ascii.ascii_of_nat 169) EmptyString).

Definition grinning_face : string :=
  String (Ascii.ascii_of_nat 240)
    (String (Ascii.ascii_of_nat 159)
       (String (Ascii.ascii_of_nat 152) (String (Ascii.ascii_of_nat 128) EmptyString))).

(** The view of a message that the examples compare. *)
Definition brief (m : ChatMessage)
    : MessageType * string * option bool * option (list StreamingEvent) :=
  (msg_type m, msg_content m, msg_streaming m, msg_events m).

(** The view of a tool call that the examples compare. *)
Definition brief_call (t : ToolCall) : string * ToolStatus * option JsValue :=
  (tc_name t, tc_status t, tc_result t).

(** * Properties *)

(** ** Strings and lines *)

Lemma append_nil (t : string) : EmptyString +:+ t = t.
Proof. reflexivity. Qed.

Lemma append_cons (c : ascii) (s t : string) : String c s +:+ t = String c (s +:+ t).
Proof. reflexivity. Qed.

Lemma append_assoc (a b c : string) : (a +:+ b) +:+ c = a +:+ (b +:+ c).
Proof.
  induction a as [|x a IH]; [reflexivity|].
  rewrite !append_cons. f_equal. exact IH.
Qed.

Lemma append_empty_r (a : string) : a +:+ EmptyString = a.
Proof.
  induction a as [|x a IH]; [reflexivity|].
  rewrite append_cons. f_equal. exact IH.
Qed.

Lemma split_nonempty (sep : ascii) (s : string) : split sep s <> [].
Proof.
  destruct s as [|c s]; simpl; [discriminate|].
  destruct (Ascii.eqb c sep); [discriminate|].
  destruct (split sep s); discriminate.
Qed.

Lemma split_newline_free (s : string) :
  newline_free s = true -> split newline s = [s].
Proof.
  induction s as [|c s IH]; simpl; [reflexivity|].
  destruct (Ascii.eqb c newline); simpl; [discriminate|].
  intros H. now rewrite (IH H).
Qed.

Lemma last_cons_nonempty {A} (x : A) (l : list A) :
  l <> [] -> last (x :: l) = last l.
Proof. destruct l; [congruence | reflexivity]. Qed.

Lemma removelast_cons_nonempty {A} (x : A) (l : list A) :
  l <> [] -> removelast (x :: l) = x :: removelast l.
Proof. destruct l; [congruence | reflexivity]. Qed.

(** Splitting a text that arrives in two pieces: the terminated lines of
    the first piece, then the split of its unterminated rest followed by
    the second piece. *)
Lemma split_append (s t : string) :
  split newline (s +:+ t)
  = terminated_lines s ++ split newline (unterminated s +:+ t).
Proof.
  unfold terminated_lines, unterminated.
  induction s as [|c s IH]; [reflexivity|].
  rewrite append_cons. cbn [split].
  destruct (Ascii.eqb c newline) eqn:E.
  - rewrite removelast_cons_nonempty, last_cons_nonempty by apply split_nonempty.
    rewrite IH. reflexivity.
  - rewrite IH.
    pose proof (split_nonempty newline s) as Hne.
    destruct (split newline s) as [|l ls]; [congruence|].
    destruct ls as [|l' ls].
    + cbn [removelast last default app].
      unfold id. rewrite append_cons. cbn [split]. rewrite E. reflexivity.
    + rewrite (removelast_cons_nonempty l) by discriminate.
      rewrite (removelast_cons_nonempty (String c l)) by discriminate.
      rewrite !last_cons_nonempty by discriminate.
      reflexivity.
Qed.

Lemma unterminated_newline_free (s : string) : newline_free (unterminated s) = true.
Proof.
  unfold unterminated.
  induction s as [|c s IH]; [reflexivity|].
  cbn [split]. destruct (Ascii.eqb c newline) eqn:E.
  - rewrite last_cons_nonempty by apply split_nonempty. exact IH.
  - pose proof (split_nonempty newline s) as Hne.
    destruct (split newline s) as [|l ls]; [congruence|].
    destruct ls as [|l' ls].
    + cbn in IH |- *. rewrite E. exact IH.
    + rewrite last_cons_nonempty by discriminate.
      rewrite last_cons_nonempty in IH by discriminate. exact IH.
Qed.

Lemma terminated_lines_newline_free (s : string) :
  newline_free s = true -> terminated_lines s = [].
Proof. intros H. unfold terminated_lines. now rewrite split_newline_free. Qed.

Lemma unterminated_of_newline_free (s : string) :
  newline_free s = true -> unterminated s = s.
Proof. intros H. unfold unterminated. now rewrite split_newline_free. Qed.

Lemma newline_free_append (s t : string) :
  newline_free s = true -> newline_free t = true -> newline_free (s +:+ t) = true.
Proof.
  induction s as [|c s IH]; [intros _ H; exact H|].
  rewrite append_cons. cbn [newline_free].
  intros [Hc Hs]%andb_prop Ht. rewrite Hc, (IH Hs Ht). reflexivity.
Qed.

Lemma removelast_app_nonempty {A} (l1 l2 : list A) :
  l2 <> [] -> removelast (l1 ++ l2) = l1 ++ removelast l2.
Proof.
  intros H. induction l1 as [|x l1 IH]; [reflexivity|].
  cbn [app]. rewrite removelast_cons_nonempty.
  - now rewrite IH.
  - destruct l1; [exact H | discriminate].
Qed.

(** The terminated lines of a text that arrives in two pieces. *)
Lemma terminated_lines_append (s t : string) :
  terminated_lines (s +:+ t)
  = terminated_lines s ++ terminated_lines (unterminated s +:+ t).
Proof.
  unfold terminated_lines at 1. rewrite split_append.
  rewrite removelast_app_nonempty by apply split_nonempty. reflexivity.
Qed.

Lemma unterminated_append (s t : string) :
  unterminated (s +:+ t) = unterminated (unterminated s +:+ t).
Proof.
  unfold unterminated at 1. rewrite split_append.
  pose proof (split_nonempty newline (unterminated s +:+ t)) as Hne.
  unfold unterminated at 2.
  destruct (split newline (unterminated s +:+ t)) as [|x l]; [congruence|].
  rewrite last_app_cons. reflexivity.
Qed.

(** ** The decoder *)

Lemma startsWith_data (data : string) :
  startsWith DATA_PREFIX (DATA_PREFIX +:+ data) = true.
Proof. destruct data; reflexivity. Qed.

Lemma slice_data (data : string) : slice 6 (DATA_PREFIX +:+ data) = data.
Proof. reflexivity. Qed.

Section DecoderFacts.
Context (env : Env) {E S : Type} (JSON_parse : string -> option E)
  (onEvent : E -> S -> Called S).

Lemma for_lines_app (l1 l2 : list string) (st : S) (warnings : list string) :
  for_lines JSON_parse onEvent (l1 ++ l2) st warnings
  = match for_lines JSON_parse onEvent l1 st warnings with
    | LinesEnd st warnings => for_lines JSON_parse onEvent l2 st warnings
    | LinesReturn st warnings => LinesReturn st warnings
    end.
Proof.
  revert st warnings. induction l1 as [|line l1 IH]; intros st warnings; [reflexivity|].
  cbn [app for_lines].
  destruct (startsWith DATA_PREFIX line); [|apply IH].
  destruct (String.eqb (slice 6 line) DONE); [reflexivity|].
  destruct (JSON_parse (slice 6 line)) as [event|]; [|apply IH].
  destruct (onEvent event st); apply IH.
Qed.

(** The warnings collected so far have no influence on what the loop does. *)
Lemma for_lines_warnings (lines : list string) (st : S) (w w' : list string) :
  lines_result (for_lines JSON_parse onEvent lines st w)
  = lines_result (for_lines JSON_parse onEvent lines st w').
Proof.
  revert st w w'. induction lines as [|line lines IH]; intros st w w'; [reflexivity|].
  cbn [for_lines].
  destruct (startsWith DATA_PREFIX line); [|apply IH].
  destruct (String.eqb (slice 6 line) DONE); [reflexivity|].
  destruct (JSON_parse (slice 6 line)) as [event|]; [|apply IH].
  destruct (onEvent event st); apply IH.
Qed.

(** What every call of the callback keeps, the loop keeps. *)
Lemma for_lines_invariant (P : S -> Prop) (lines : list string) (st : S)
    (w : list string) :
  (forall e s, P s -> P (after_call (onEvent e s))) ->
  P st -> P (snd (lines_result (for_lines JSON_parse onEvent lines st w))).
Proof.
  intros Hstep. revert st w. induction lines as [|line lines IH]; intros st w H;
    [exact H|].
  cbn [for_lines].
  destruct (startsWith DATA_PREFIX line); [|now apply IH].
  destruct (String.eqb (slice 6 line) DONE); [exact H|].
  destruct (JSON_parse (slice 6 line)) as [event|]; [|now apply IH].
  pose proof (Hstep event st H) as H'.
  destruct (onEvent event st); apply IH, H'.
Qed.

(** The loop over the chunks does what one pass over the terminated lines
    of the joined text does: chunk boundaries are immaterial, and the text
    after the last newline is never looked at. *)
Lemma read_loop_lines (chunks : list string) (ending : BodyEnd) (buffer : string)
    (st : S) (warnings : list string) :
  newline_free buffer = true ->
  read_loop env JSON_parse onEvent false chunks ending buffer st warnings
  = outcome_of_lines ending
      (for_lines JSON_parse onEvent (terminated_lines (buffer +:+ received chunks)) st warnings).
Proof.
  revert buffer st warnings.
  induction chunks as [|value chunks IH]; intros buffer st warnings Hfree.
  - cbn [read_loop received foldr]. rewrite append_empty_r.
    rewrite terminated_lines_newline_free by exact Hfree.
    destruct ending; reflexivity.
  - cbn [read_loop received foldr]. fold (received chunks).
    rewrite <- append_assoc, terminated_lines_append, for_lines_app.
    unfold on_chunk. fold (terminated_lines (buffer +:+ value)).
    fold (unterminated (buffer +:+ value)).
    destruct (for_lines JSON_parse onEvent (terminated_lines (buffer +:+ value)) st warnings)
      as [st' warnings'|st' warnings']; [|reflexivity].
    apply IH, unterminated_newline_free.
Qed.

Lemma streamAgent_lines (chunks : list string) (ending : BodyEnd) (st : S) :
  streamAgent env JSON_parse onEvent false (Streams chunks ending) st
  = outcome_of_lines ending
      (for_lines JSON_parse onEvent (terminated_lines (received chunks)) st []).
Proof.
  unfold streamAgent. cbn [fetch_failure].
  now rewrite read_loop_lines.
Qed.

(** One line that carries a payload other than the sentinel. *)
Lemma for_lines_data (data : string) (rest : list string) (st : S)
    (warnings : list string) :
  data <> DONE ->
  for_lines JSON_parse onEvent ((DATA_PREFIX +:+ data) :: rest) st warnings
  = match JSON_parse data with
    | Some event =>
        match onEvent event st with
        | Returns st => for_lines JSON_parse onEvent rest st warnings
        | Throws st => for_lines JSON_parse onEvent rest st (warnings ++ [data])
        end
    | None => for_lines JSON_parse onEvent rest st (warnings ++ [data])
    end.
Proof.
  intros Hdone. cbn [for_lines]. rewrite startsWith_data, slice_data.
  destruct (String.eqb_spec data DONE) as [->|_]; [congruence|reflexivity].
Qed.

End DecoderFacts.

(** A line and its newline in front of a text. *)
Lemma split_line (line text : string) :
  newline_free line = true ->
  split newline (line +:+ nl +:+ text) = line :: split newline text.
Proof.
  induction line as [|c line IH]; [reflexivity|].
  rewrite append_cons. cbn [newline_free split].
  destruct (Ascii.eqb c newline); [discriminate|].
  cbn [negb andb]. intros H. now rewrite (IH H).
Qed.

Lemma terminated_lines_frame (data text : string) :
  newline_free data = true ->
  terminated_lines (frame data +:+ text)
  = (DATA_PREFIX +:+ data) :: terminated_lines text.
Proof.
  intros H. unfold terminated_lines, frame.
  rewrite <- (append_assoc DATA_PREFIX data nl), append_assoc.
  rewrite split_line by (apply newline_free_append; [reflexivity | exact H]).
  apply removelast_cons_nonempty, split_nonempty.
Qed.

(** C7, as the specification states it, fails: a payload that is valid
    JSON is handed to the callback whatever it is.  The payloads [42] and
    [{}] are not events, yet the callback receives both and nothing is
    warned; the payload [null] is handed over too, and it is warned about
    only because a callback that reads [event.type] throws on it, after
    it has recorded the value. *)
Lemma payload_that_is_no_event_is_handed_over :
  let body := Streams [frame "42" +:+ frame "{}" +:+ frame "null"] Closed in
  let recorded := streamAgent sample_env json_values (returning collect) false body [] in
  let read := streamAgent sample_env json_values push_then_read_type false body [] in
  has_event_shape (JNum 42) = false
  /\ has_event_shape (JObj []) = false
  /\ has_event_shape JNull = false
  /\ final recorded = [JNum 42; JObj []; JNull]
  /\ warned recorded = []
  /\ final read = [JNum 42; JObj []; JNull]
  /\ warned read = ["null"].
Proof. vm_compute. repeat split. Qed.

(** C7, amended: a line that starts with the prefix [data: ], is not the
    sentinel and on which [JSON.parse] throws is dropped.  Alone, it
    leaves the callback uninvoked and costs exactly one warning with its
    payload.  Followed by a frame that parses, it is followed by one call
    of the callback on that frame's value, in the state the bad frame
    found.  Whatever lines follow, the loop goes on with them; wherever
    the line stands among the lines of a body, the events handed to the
    callback and the way the loop ends are those of the body without it.
    The decoder does not throw on such a line: a body that is read to its
    close without abort never ends in an exception, whatever lines it
    carries and whatever the callback does; and a body of the bad frame
    and a frame that parses ends by the close of the stream, with the
    callback called once. *)
Theorem malformed_frame_is_dropped (env : Env) {E S : Type}
    (JSON_parse : string -> option E) (onEvent : E -> S -> Called S) (data : string) :
  data <> DONE ->
  JSON_parse data = None ->
  (forall (st : S) (warnings : list string),
      for_lines JSON_parse onEvent [DATA_PREFIX +:+ data] st warnings
      = LinesEnd st (warnings ++ [data]))
  /\ (forall (next : string) (event : E) (st : S) (warnings : list string),
        next <> DONE ->
        JSON_parse next = Some event ->
        for_lines JSON_parse onEvent [DATA_PREFIX +:+ data; DATA_PREFIX +:+ next] st warnings
        = match onEvent event st with
          | Returns st' => LinesEnd st' (warnings ++ [data])
          | Throws st' => LinesEnd st' (warnings ++ [data; next])
          end)
  /\ (forall (rest : list string) (st : S) (warnings : list string),
        for_lines JSON_parse onEvent ((DATA_PREFIX +:+ data) :: rest) st warnings
        = for_lines JSON_parse onEvent rest st (warnings ++ [data]))
  /\ (forall (before rest : list string) (st : S) (warnings : list string),
        lines_result
          (for_lines JSON_parse onEvent (before ++ (DATA_PREFIX +:+ data) :: rest) st warnings)
        = lines_result (for_lines JSON_parse onEvent (before ++ rest) st warnings))
  /\ (forall (chunks : list string) (st : S) (e : Exn),
        completion (streamAgent env JSON_parse onEvent false (Streams chunks Closed) st)
        <> Threw e)
  /\ (forall (next : string) (event : E) (st : S),
        newline_free data = true ->
        newline_free next = true ->
        next <> DONE ->
        JSON_parse next = Some event ->
        streamAgent env JSON_parse onEvent false (Streams [frame data; frame next] Closed) st
        = {| completion := ByClose;
             final := after_call (onEvent event st);
             warned := match onEvent event st with
                       | Returns _ => [data]
                       | Throws _ => [data; next]
                       end |}).
Proof.
  intros Hdone Hparse.
  assert (Hdrop : forall rest st warnings,
             for_lines JSON_parse onEvent ((DATA_PREFIX +:+ data) :: rest) st warnings
             = for_lines JSON_parse onEvent rest st (warnings ++ [data])).
  { intros rest st warnings. rewrite for_lines_data by exact Hdone. now rewrite Hparse. }
  assert (Hpair : forall next event st warnings,
             next <> DONE -> JSON_parse next = Some event ->
             for_lines JSON_parse onEvent [DATA_PREFIX +:+ data; DATA_PREFIX +:+ next] st warnings
             = match onEvent event st with
               | Returns st' => LinesEnd st' (warnings ++ [data])
               | Throws st' => LinesEnd st' (warnings ++ [data; next])
               end).
  { intros next event st warnings Hnext Hevent.
    rewrite Hdrop, for_lines_data by exact Hnext. rewrite Hevent.
    destruct (onEvent event st); cbn [for_lines]; [reflexivity|].
    now rewrite <- app_assoc. }
  split; [intros st warnings; apply Hdrop|].
  split; [exact Hpair|].
  split; [exact Hdrop|]. split; [|split].
  - intros before rest st warnings. rewrite !for_lines_app.
    destruct (for_lines JSON_parse onEvent before st warnings) as [st' w'|st' w'];
      [|reflexivity].
    rewrite Hdrop. apply for_lines_warnings.
  - intros chunks st e. rewrite streamAgent_lines.
    destruct (for_lines JSON_parse onEvent (terminated_lines (received chunks)) st []);
      discriminate.
  - intros next event st Hfd Hfn Hnext Hevent.
    rewrite streamAgent_lines. cbn [received foldr].
    rewrite terminated_lines_frame by exact Hfd.
    rewrite terminated_lines_frame by exact Hfn.
    change (terminated_lines EmptyString) with (@nil string).
    rewrite (Hpair next event st [] Hnext Hevent).
    destruct (onEvent event st); reflexivity.
Qed.

Lemma malformed_frame_is_dropped_witness :
  for_lines (json_parse sample_env) (returning collect)
    [DATA_PREFIX +:+ "{not valid json"; DATA_PREFIX +:+ ok_payload] [] []
  = LinesEnd [sample_content] ["{not valid json"].
Proof.
  apply (proj1 (proj2 (malformed_frame_is_dropped sample_env (json_parse sample_env)
                         (returning collect) "{not valid json"
                         ltac:(discriminate) ltac:(reflexivity)))
           ok_payload sample_content [] [] ltac:(discriminate) ltac:(reflexivity)).
Defined.

(** The scenario of the specification: a malformed frame followed by a
    content frame yields no event for the first and one for the second. *)
Example malformed_then_content :
  let o := streamAgent sample_env (json_parse sample_env) (returning collect) false
             (Streams [frame "{not valid json" +:+ frame ok_payload] Closed) [] in
  final o = [sample_content] /\ warned o = ["{not valid json"] /\ completion o = ByClose.
Proof. repeat split. Qed.

(** C10: only the lines terminated by a newline are parsed.  A call that
    reads the body to its close does what one pass over the terminated
    lines of the joined chunks does; whatever text follows the last
    newline when the stream closes is discarded, so a body that ends with
    an unterminated tail (a complete frame or the sentinel included) is
    decoded as if the tail had not been sent. *)
Theorem unterminated_tail_is_discarded (env : Env) {E S : Type}
    (JSON_parse : string -> option E) (onEvent : E -> S -> Called S)
    (chunks chunks' : list string) (trailing : string) (st : S) :
  newline_free trailing = true ->
  received chunks' = received chunks +:+ trailing ->
  streamAgent env JSON_parse onEvent false (Streams chunks Closed) st
  = outcome_of_lines Closed
      (for_lines JSON_parse onEvent (terminated_lines (received chunks)) st [])
  /\ streamAgent env JSON_parse onEvent false (Streams chunks' Closed) st
     = streamAgent env JSON_parse onEvent false (Streams chunks Closed) st.
Proof.
  intros Hfree Htext. split; [apply streamAgent_lines|].
  rewrite !streamAgent_lines, Htext, terminated_lines_append.
  rewrite (terminated_lines_newline_free (unterminated _ +:+ trailing)).
  - now rewrite app_nil_r.
  - apply newline_free_append; [apply unterminated_newline_free | exact Hfree].
Qed.

Lemma unterminated_tail_is_discarded_witness :
  streamAgent sample_env (json_parse sample_env) (returning collect) false
    (Streams [frame ok_payload +:+ "da"; "ta: [DONE]"] Closed) []
  = streamAgent sample_env (json_parse sample_env) (returning collect) false
      (Streams [frame ok_payload] Closed) [].
Proof.
  apply (proj2 (unterminated_tail_is_discarded sample_env (json_parse sample_env)
                  (returning collect) [frame ok_payload]
                  [frame ok_payload +:+ "da"; "ta: [DONE]"] "data: [DONE]" []
                  ltac:(reflexivity) ltac:(reflexivity))).
Defined.

(** The sentinel ends the call only when its line is terminated. *)
Example sentinel_needs_newline :
  completion (streamAgent sample_env (json_parse sample_env) (returning collect) false
                (Streams [DATA_PREFIX +:+ DONE; frame ok_payload] Closed) []) = ByClose
  /\ completion (streamAgent sample_env (json_parse sample_env) (returning collect) false
                   (Streams [frame DONE; frame ok_payload] Closed) []) = BySentinel.
Proof. split; reflexivity. Qed.

(** ** The reducer: one event at a time *)

Section ReducerFacts.
Context (env : Env).

Lemma onEvent_closure (e : StreamingEvent) (c : Closure) (h : Hook) :
  fst (onEvent env e (c, h))
  = {| assistantMessageId := assistantMessageId c;
       fullContent := if bool_decide (ev_type e = content)
                      then fullContent c +:+ ev_content e else fullContent c;
       events := events c ++ [e] |}.
Proof. by_event_kind e; reflexivity. Qed.

Lemma onEvent_messages (e : StreamingEvent) (c : Closure) (h : Hook) :
  messages (state (snd (onEvent env e (c, h))))
  = match ev_type e with
    | content =>
        map (fun msg =>
               if String.eqb (msg_id msg) (assistantMessageId c)
               then spread_message msg
                      (content_updates (fullContent c +:+ ev_content e) (events c ++ [e]))
               else msg)
            (messages (state h))
    | complete =>
        map (fun msg =>
               if String.eqb (msg_id msg) (assistantMessageId c)
               then spread_message msg
                      (complete_updates (ev_metadata e) (length (events c ++ [e])))
               else msg)
            (messages (state h))
    | _ => messages (state h)
    end.
Proof. by_event_kind e; reflexivity. Qed.

Lemma onEvent_streamingEvents (e : StreamingEvent) (c : Closure) (h : Hook) :
  streamingEvents (state (snd (onEvent env e (c, h))))
  = streamingEvents (state h) ++ [e].
Proof. by_event_kind e; reflexivity. Qed.

Lemma onEvent_flags (e : StreamingEvent) (c : Closure) (h : Hook) :
  let h' := snd (onEvent env e (c, h)) in
  isLoading (state h') = isLoading (state h)
  /\ isStreaming (state h') = isStreaming (state h)
  /\ abortControllerRef h' = abortControllerRef h
  /\ controllers h' = controllers h.
Proof. by_event_kind e; repeat split. Qed.

Lemma apply_events_app (evs1 evs2 : list StreamingEvent) (ch : Closure * Hook) :
  apply_events env (evs1 ++ evs2) ch = apply_events env evs2 (apply_events env evs1 ch).
Proof. apply fold_left_app. Qed.

Lemma apply_events_snoc (evs : list StreamingEvent) (e : StreamingEvent) (ch : Closure * Hook) :
  apply_events env (evs ++ [e]) ch = onEvent env e (apply_events env evs ch).
Proof. now rewrite apply_events_app. Qed.

End ReducerFacts.

(** ** The decoder's callback is only ever invoked, never inspected *)

Section Collect.
Context (env : Env) {E S : Type} (JSON_parse : string -> option E) (onEvent : E -> S -> S).

Lemma for_lines_collect (lines : list string) (st0 : S) (seen : list E)
    (warnings : list string) :
  for_lines JSON_parse (returning onEvent) lines
    (fold_left (fun s e => onEvent e s) seen st0) warnings
  = map_lines (fun seen => fold_left (fun s e => onEvent e s) seen st0)
      (for_lines JSON_parse (returning collect) lines seen warnings).
Proof.
  revert seen warnings. induction lines as [|line lines IH]; intros seen warnings;
    [reflexivity|].
  cbn [for_lines].
  destruct (startsWith DATA_PREFIX line); [|apply IH].
  destruct (String.eqb (slice 6 line) DONE); [reflexivity|].
  destruct (JSON_parse (slice 6 line)) as [event|]; [|apply IH].
  cbn [returning]. rewrite <- IH. unfold collect. now rewrite fold_left_app.
Qed.

(** Running the decoder with a callback that does not throw is running it
    with the recording callback and then feeding the recorded events, in
    order, to the callback. *)
Lemma streamAgent_collect (ab : bool) (net : Network) (st0 : S) :
  streamAgent env JSON_parse (returning onEvent) ab net st0
  = map_outcome (fun seen => fold_left (fun s e => onEvent e s) seen st0)
      (streamAgent env JSON_parse (returning collect) ab net []).
Proof.
  destruct ab.
  - reflexivity.
  - destruct net as [e|errorData statusText| |chunks ending]; try reflexivity.
    rewrite !streamAgent_lines.
    pose proof (for_lines_collect (terminated_lines (received chunks)) st0 [] []) as H.
    cbn [fold_left] in H. rewrite H.
    destruct (for_lines JSON_parse (returning collect) (terminated_lines (received chunks)) [] []);
      reflexivity.
Qed.

End Collect.

(** Neither the events handed over nor the warnings depend on how the
    body ends once its chunks are consumed. *)
Lemma streamAgent_ending (env : Env) {E S : Type} (JSON_parse : string -> option E)
    (onEvent : E -> S -> Called S) (chunks : list string) (ending : BodyEnd) (st : S) :
  let o := streamAgent env JSON_parse onEvent false (Streams chunks ending) st in
  let o' := streamAgent env JSON_parse onEvent false (Streams chunks Closed) st in
  final o = final o' /\ warned o = warned o'
  /\ completion o = match completion o', ending with
                    | ByClose, Broken e => Threw e
                    | k, _ => k
                    end.
Proof.
  cbn zeta. rewrite !streamAgent_lines.
  destruct (for_lines JSON_parse onEvent (terminated_lines (received chunks)) st []);
    destruct ending; repeat split.
Qed.

(** ** One streaming turn *)

Lemma concatenation_app (evs1 evs2 : list StreamingEvent) :
  concatenation (evs1 ++ evs2) = concatenation evs1 +:+ concatenation evs2.
Proof.
  induction evs1 as [|e evs1 IH]; [reflexivity|].
  cbn [app concatenation foldr]. fold (concatenation (evs1 ++ evs2)).
  fold (concatenation evs1). now rewrite IH, append_assoc.
Qed.

Lemma accumulated_snoc (evs : list StreamingEvent) (e : StreamingEvent) :
  accumulated (evs ++ [e])
  = accumulated evs +:+ (if is_content e then ev_content e else EmptyString).
Proof.
  unfold accumulated. rewrite List.filter_app, concatenation_app. cbn [List.filter].
  destruct (is_content e); cbn [concatenation foldr]; now rewrite ?append_empty_r.
Qed.

Lemma accumulated_all_content (evs : list StreamingEvent) :
  Forall (fun e => ev_type e = content) evs -> accumulated evs = concatenation evs.
Proof.
  unfold accumulated. induction 1 as [|e evs He _ IH]; [reflexivity|].
  cbn [List.filter]. unfold is_content at 1. rewrite bool_decide_eq_true_2 by exact He.
  cbn [concatenation foldr]. f_equal. exact IH.
Qed.

Lemma through_last_content_snoc (evs : list StreamingEvent) (e : StreamingEvent) :
  through_last_content (evs ++ [e])
  = if is_content e then evs ++ [e] else through_last_content evs.
Proof.
  induction evs as [|x evs IH].
  - cbn. destruct (is_content e); reflexivity.
  - cbn [app through_last_content]. rewrite existsb_app. cbn [existsb].
    rewrite Bool.orb_false_r, IH.
    destruct (is_content e).
    + now rewrite Bool.orb_true_r.
    + now rewrite Bool.orb_false_r.
Qed.

Lemma last_map {A B : Type} (f : A -> B) (l : list A) :
  last (map f l) = option_map f (last l).
Proof.
  induction l as [|x l IH]; [reflexivity|].
  destruct l as [|y l]; [reflexivity|].
  change (last (map f (x :: y :: l))) with (last (map f (y :: l))).
  rewrite IH. reflexivity.
Qed.

Section TurnFacts.
Context (env : Env).

Lemma turn_ok_open (h : Hook) :
  turn_ok (streamingEvents (state h)) [] (handleStreamingResponse_open env h).
Proof.
  unfold turn_ok, handleStreamingResponse_open, addMessage. cbn.
  repeat split; [now rewrite app_nil_r|].
  eexists. rewrite last_snoc. repeat split.
Qed.

Lemma turn_ok_step (earlier seen : list StreamingEvent) (e : StreamingEvent)
    (ch : Closure * Hook) :
  turn_ok earlier seen ch -> turn_ok earlier (seen ++ [e]) (onEvent env e ch).
Proof.
  destruct ch as [c h]. unfold turn_ok. cbn [fst snd].
  intros (Hev & Hfull & Hse & m & Hlast & Hid & Hty & Hcontent & Hevents).
  rewrite onEvent_closure, onEvent_streamingEvents, onEvent_messages.
  cbn [events fullContent assistantMessageId].
  rewrite accumulated_snoc, through_last_content_snoc, Hev, Hfull, Hse.
  unfold is_content.
  destruct (ev_type e) eqn:Hkind;
    rewrite ?bool_decide_eq_false_2 by discriminate;
    rewrite ?bool_decide_eq_true_2 by reflexivity;
    rewrite ?append_empty_r;
    (split; [reflexivity|]); (split; [reflexivity|]);
    (split; [now rewrite app_assoc|]);
    try (exists m; repeat split; assumption).
  - (* content *)
    rewrite last_map, Hlast. cbn [option_map]. rewrite Hid, String.eqb_refl.
    eexists. split; [reflexivity|]. cbn. repeat split; assumption.
  - (* complete *)
    rewrite last_map, Hlast. cbn [option_map]. rewrite Hid, String.eqb_refl.
    eexists. split; [reflexivity|]. cbn. repeat split; assumption.
Qed.

Lemma turn_ok_events (earlier seen evs : list StreamingEvent) (ch : Closure * Hook) :
  turn_ok earlier seen ch -> turn_ok earlier (seen ++ evs) (apply_events env evs ch).
Proof.
  revert seen ch. induction evs as [|e evs IH]; intros seen ch H.
  - now rewrite app_nil_r.
  - cbn [apply_events fold_left]. fold (apply_events env evs (onEvent env e ch)).
    replace (seen ++ e :: evs) with ((seen ++ [e]) ++ evs) by now rewrite <- app_assoc.
    apply IH, turn_ok_step, H.
Qed.

End TurnFacts.

(** ** [sendMessage], run without interruption *)

Section SendFacts.
Context (env : Env).

Lemma sendMessage_prologue_state (content_ : string) (useStreaming : bool) (h : Hook) :
  let '(signal, hp) := sendMessage_prologue env content_ useStreaming h in
  signal = length (controllers h)
  /\ controllers hp = controllers h ++ [false]
  /\ abortControllerRef hp = Some signal
  /\ state hp
     = {| messages :=
            messages (state h)
            ++ [{| msg_id := pretty (date_now env (clock_reads h)) +:+ "-"
                               +:+ math_random env (random_draws h);
                   msg_type := user; msg_content := content_;
                   msg_timestamp := date_now env (S (clock_reads h));
                   msg_metadata := None; msg_streaming := None; msg_events := None |}];
          isLoading := true; isStreaming := useStreaming;
          currentAgent := currentAgent (state h); error_ := None;
          toolCalls := toolCalls (state h); streamingEvents := [] |}.
Proof. cbn. repeat split. Qed.


Lemma fresh_signal_not_aborted (content_ : string) (useStreaming : bool) (h : Hook) :
  let '(signal, hp) := sendMessage_prologue env content_ useStreaming h in
  aborted signal hp = false
  /\ aborted signal (snd (handleStreamingResponse_open env hp)) = false.
Proof.
  cbn. unfold aborted. cbn.
  rewrite list_lookup_middle by reflexivity. split; reflexivity.
Qed.

(** A streaming call, run without interruption, is: the prologue, the new
    assistant message, the decoded events applied in order, the decoder's
    warnings, then the [catch] and [finally] blocks. *)
Lemma sendMessage_streaming (content_ : string) (server : Server) (h : Hook) :
  sendMessage env content_ true server h
  = let hp := snd (sendMessage_prologue env content_ true h) in
    let o := streamAgent env (json_parse env) (returning collect) false
               (stream_endpoint server) [] in
    settle (thrown_of (completion o))
      (snd (apply_events env (final o) (handleStreamingResponse_open env hp))).
Proof.
  unfold sendMessage.
  pose proof (fresh_signal_not_aborted content_ true h) as Hsig.
  destruct (sendMessage_prologue env content_ true h) as [signal hp].
  destruct Hsig as [_ Hsig]. cbn [snd].
  unfold handleStreamingResponse.
  destruct (handleStreamingResponse_open env hp) as [c ho]. cbn [snd] in Hsig.
  rewrite Hsig, streamAgent_collect. reflexivity.
Qed.

Lemma settle_state (thrown : option Exn) (h : Hook) :
  state (settle thrown h)
  = set_isStreaming false
      (set_isLoading false
         (match thrown with
          | Some e => set_error (Some (errorMessage e)) (state h)
          | None => state h
          end))
  /\ abortControllerRef (settle thrown h) = None
  /\ controllers (settle thrown h) = controllers h.
Proof. destruct thrown; repeat split. Qed.

End SendFacts.

(** C6: when the events of a turn are [content] events, the turn's message
    ends with the ordered concatenation of their [content] fields, and
    after every prefix of the sequence it holds the concatenation of that
    prefix: each event extends the text by its own payload, nothing that
    was there is dropped or rewritten. *)
Theorem content_is_ordered_concatenation (env : Env) (h : Hook)
    (evs : list StreamingEvent) :
  Forall (fun e => ev_type e = content) evs ->
  exists m,
    assistant_after env h evs = Some m
    /\ msg_content m = concatenation evs
    /\ forall evs1 evs2, evs = evs1 ++ evs2 ->
         exists m1, assistant_after env h evs1 = Some m1
                    /\ msg_content m1 = concatenation evs1
                    /\ msg_content m = msg_content m1 +:+ concatenation evs2.
Proof.
  intros Hall.
  assert (Hturn : forall l, exists m,
             assistant_after env h l = Some m /\ msg_content m = accumulated l).
  { intros l. unfold assistant_after.
    pose proof (turn_ok_events env _ [] l _ (turn_ok_open env h)) as H.
    destruct H as (_ & _ & _ & m & Hlast & _ & _ & Hc & _).
    exists m. split; [exact Hlast | exact Hc]. }
  destruct (Hturn evs) as (m & Hm & Hc).
  exists m. split; [exact Hm|].
  rewrite Hc, accumulated_all_content by exact Hall.
  split; [reflexivity|].
  intros evs1 evs2 ->.
  destruct (Hturn evs1) as (m1 & Hm1 & Hc1).
  exists m1. split; [exact Hm1|].
  apply Forall_app in Hall as [Hall1 _].
  rewrite Hc1, accumulated_all_content by exact Hall1.
  split; [reflexivity | apply concatenation_app].
Qed.

Lemma content_is_ordered_concatenation_witness :
  exists m,
    assistant_after sample_env (useAgentChat "agent")
      [event_of content "Hel" no_metadata; event_of content "lo" no_metadata] = Some m
    /\ msg_content m = "Hello".
Proof.
  destruct (content_is_ordered_concatenation sample_env (useAgentChat "agent")
              [event_of content "Hel" no_metadata; event_of content "lo" no_metadata])
    as (m & Hm & Hc & _).
  - repeat constructor.
  - exists m. split; [exact Hm | exact Hc].
Defined.

(** Kinds other than [content] leave the text alone: for any sequence of
    events the message holds what its [content] events have accumulated. *)
Lemma content_ignores_other_kinds (env : Env) (h : Hook) (evs : list StreamingEvent) :
  exists m, assistant_after env h evs = Some m /\ msg_content m = accumulated evs.
Proof.
  unfold assistant_after.
  pose proof (turn_ok_events env _ [] evs _ (turn_ok_open env h)) as H.
  destruct H as (_ & _ & _ & m & Hlast & _ & _ & Hc & _).
  exists m. split; [exact Hlast | exact Hc].
Qed.

(** C4, as the specification states it, fails: for a turn that receives a
    [content] event and then a [complete] event, the message ends with one
    recorded event although two were decoded. *)
Lemma complete_event_is_not_recorded :
  let net := Streams [frame ok_payload; frame complete_payload] Closed in
  let h := sendMessage sample_env "hi" true (server_of net) (useAgentChat "agent") in
  decode sample_env net = [sample_content; sample_complete]
  /\ (brief <$> last (messages (state h)))
     = Some (assistant, "ok", Some false, Some [sample_content])
  /\ (last (messages (state h)) ≫= msg_events) <> Some (decode sample_env net).
Proof. vm_compute. repeat split. discriminate. Qed.

(** C4, amended: every decoded event is appended, once and in arrival
    order, to the conversation's [streamingEvents]; the turn's message
    receives a copy of the events seen so far only when a [content] event
    is applied, so at the end of the turn it holds the decoded events up to
    and including the last [content] event. *)
Theorem events_recorded_through_last_content (env : Env) (content_ : string)
    (server : Server) (h : Hook) :
  let evs := decode env (stream_endpoint server) in
  let h' := sendMessage env content_ true server h in
  streamingEvents (state h') = evs
  /\ exists m, last (messages (state h')) = Some m
               /\ msg_type m = assistant
               /\ msg_events m = Some (through_last_content evs).
Proof.
  cbn zeta. rewrite sendMessage_streaming. cbn zeta.
  pose proof (sendMessage_prologue_state env content_ true h) as Hp.
  destruct (sendMessage_prologue env content_ true h) as [signal hp].
  destruct Hp as (_ & _ & _ & Hstate). cbn [snd].
  pose proof (turn_ok_events env _ [] (decode env (stream_endpoint server)) _
                (turn_ok_open env hp)) as Hturn.
  rewrite Hstate in Hturn. cbn [streamingEvents app] in Hturn.
  destruct Hturn as (_ & _ & Hse & m & Hlast & _ & Hty & _ & Hev).
  fold (decode env (stream_endpoint server)).
  destruct (settle_state (thrown_of (completion
              (streamAgent env (json_parse env) (returning collect) false (stream_endpoint server) [])))
              (snd (apply_events env (decode env (stream_endpoint server))
                      (handleStreamingResponse_open env hp)))) as (-> & _).
  split.
  - destruct (thrown_of _); exact Hse.
  - exists m. split; [|split; assumption].
    destruct (thrown_of _); exact Hlast.
Qed.

(** ** Calling [sendMessage] *)

(** C1, as the specification states it, fails: a second call made while
    the first stream is in flight is carried out like any other: it
    appends its user message and a new assistant message and issues a
    second streaming request. *)
Lemma send_while_streaming_is_not_rejected :
  let server := server_of (Streams [frame ok_payload] Closed) in
  let first_call := sendMessage_call sample_env "first" true server (useAgentChat "agent") in
  let second_call := sendMessage_call sample_env "second" true server (snd first_call) in
  isStreaming (state (snd first_call)) = true
  /\ brief <$> messages (state (snd first_call))
     = [(user, "first", None, None); (assistant, EmptyString, Some true, Some [])]
  /\ brief <$> messages (state (snd second_call))
     = [(user, "first", None, None); (assistant, EmptyString, Some true, Some []);
        (user, "second", None, None); (assistant, EmptyString, Some true, Some [])]
  /\ opens_stream (fst second_call) = true
  /\ state (snd second_call) <> state (snd first_call).
Proof.
  vm_compute. repeat split. intros H. discriminate H.
Qed.

(** C1, amended: [sendMessage] does not look at [isStreaming].  Whatever
    the state, the call appends the user message, sets [isLoading], sets
    [isStreaming] to the requested mode, clears [error] and
    [streamingEvents], and issues its request: a streaming call also
    appends an empty assistant message marked as streaming and opens the
    stream; a non-streaming call issues the one request to the agent. *)
Theorem send_is_unconditional (env : Env) (content_ : string) (useStreaming : bool)
    (server : Server) (h : Hook) :
  let '(p, h') := sendMessage_call env content_ useStreaming server h in
  exists u,
    brief u = (user, content_, None, None)
    /\ isLoading (state h') = true
    /\ isStreaming (state h') = useStreaming
    /\ error_ (state h') = None
    /\ streamingEvents (state h') = []
    /\ if useStreaming
       then exists a c signal,
              messages (state h') = messages (state h) ++ [u; a]
              /\ brief a = (assistant, EmptyString, Some true, Some [])
              /\ p = AwaitFetch c signal (stream_endpoint server)
       else exists signal,
              messages (state h') = messages (state h) ++ [u]
              /\ p = AwaitCallAgent signal (agent_endpoint server).
Proof.
  pose (u := {| msg_id := pretty (date_now env (clock_reads h)) +:+ "-"
                            +:+ math_random env (random_draws h);
                msg_type := user; msg_content := content_;
                msg_timestamp := date_now env (S (clock_reads h));
                msg_metadata := None; msg_streaming := None; msg_events := None |}).
  destruct useStreaming; cbn; exists u; repeat split.
  - do 3 eexists.
    split; [rewrite <- app_assoc; reflexivity | split; reflexivity].
  - eexists. split; reflexivity.
Qed.

(** ** Transport failures *)

(** C5, as the specification states it, fails: when the connection cannot
    be opened the conversation ends with [error] set and [isStreaming]
    false, but the assistant message of the turn has already been
    appended and stays, empty and marked as streaming. *)
Lemma failed_connection_leaves_assistant_message :
  let server := server_of (ConnectFails (ErrorObject "Failed to fetch")) in
  let h := sendMessage sample_env "hi" true server (useAgentChat "agent") in
  error_ (state h) = Some "Failed to fetch"
  /\ isStreaming (state h) = false
  /\ brief <$> messages (state h)
     = [(user, "hi", None, None); (assistant, EmptyString, Some true, Some [])].
Proof. vm_compute. repeat split. Qed.

(** C5, amended.  A streaming turn whose request fails before the body is
    read ([fetch] rejects, the response is not ok, or it has no body) ends
    with [error] set to the failure's message and [isLoading] and
    [isStreaming] false; the user message and the empty assistant message,
    still marked as streaming, have been appended.  A turn whose body
    breaks after [chunks] (which carry no sentinel line, so that the break
    is observed) ends in the state it would have reached had the body
    closed there, with [error] set to the failure's message. *)
Theorem transport_failure_is_terminal (env : Env) (content_ : string) (h : Hook)
    (net : Network) (e e' : Exn) (chunks : list string) :
  fetch_failure env false net = Some e ->
  completion (streamAgent env (json_parse env) (returning collect) false
                (Streams chunks Closed) []) = ByClose ->
  (let h' := sendMessage env content_ true (server_of net) h in
   error_ (state h') = Some (errorMessage e)
   /\ isLoading (state h') = false
   /\ isStreaming (state h') = false
   /\ exists u a,
        messages (state h') = messages (state h) ++ [u; a]
        /\ brief u = (user, content_, None, None)
        /\ brief a = (assistant, EmptyString, Some true, Some []))
  /\ state (sendMessage env content_ true (server_of (Streams chunks (Broken e'))) h)
     = set_error (Some (errorMessage e'))
         (state (sendMessage env content_ true (server_of (Streams chunks Closed)) h)).
Proof.
  intros Hfail Hclose. split.
  - cbn zeta. rewrite sendMessage_streaming. cbn zeta.
    unfold streamAgent. cbn [server_of stream_endpoint]. rewrite Hfail.
    cbn. repeat split. do 2 eexists. rewrite <- app_assoc. repeat split.
  - rewrite !sendMessage_streaming. cbn zeta. cbn [server_of stream_endpoint].
    destruct (streamAgent_ending env (json_parse env) (returning collect) chunks (Broken e') []) as (-> & _ & ->).
    rewrite Hclose. reflexivity.
Qed.

Lemma transport_failure_is_terminal_witness :
  error_ (state (sendMessage sample_env "hi" true
                   (server_of (HttpNotOk EmptyString "Bad Gateway"))
                   (useAgentChat "agent")))
  = Some "Failed to stream agent: Bad Gateway"
  /\ state (sendMessage sample_env "hi" true
              (server_of (Streams [frame ok_payload] (Broken (ErrorObject "network error"))))
              (useAgentChat "agent"))
     = set_error (Some "network error")
         (state (sendMessage sample_env "hi" true
                   (server_of (Streams [frame ok_payload] Closed))
                   (useAgentChat "agent"))).
Proof.
  pose proof (transport_failure_is_terminal sample_env "hi" (useAgentChat "agent")
                (HttpNotOk EmptyString "Bad Gateway")
                (ErrorObject "Failed to stream agent: Bad Gateway")
                (ErrorObject "network error") [frame ok_payload]
                ltac:(reflexivity) ltac:(reflexivity)) as [[H _] H'].
  split; [exact H | exact H'].
Defined.

(** The step at which a failure is observed changes [error], [isLoading]
    and [isStreaming] and nothing else of the state. *)
Lemma broken_read_settles (env : Env) (c : Closure) (signal : nat) (buffer : string)
    (e : Exn) (h : Hook) :
  aborted signal h = false ->
  resume env (AwaitRead c signal buffer [] (Broken e)) h = (None, settle (Some e) h)
  /\ state (settle (Some e) h)
     = set_isStreaming false
         (set_isLoading false (set_error (Some (errorMessage e)) (state h))).
Proof. intros Hab. cbn. rewrite Hab. split; reflexivity. Qed.

(** ** Cancellation *)


Section InFlight.
Context (env : Env).




End InFlight.



(** ** The streaming flag *)

Lemma removelast_map {A B : Type} (f : A -> B) (l : list A) :
  removelast (map f l) = map f (removelast l).
Proof.
  induction l as [|x l IH]; [reflexivity|].
  destruct l as [|y l]; [reflexivity|].
  change (removelast (map f (x :: y :: l))) with (f x :: removelast (map f (y :: l))).
  now rewrite IH.
Qed.

Lemma none_streaming_map (g : ChatMessage -> ChatMessage) (l : list ChatMessage) :
  (forall m, streaming_assistant m = false -> streaming_assistant (g m) = false) ->
  none_streaming l = true -> none_streaming (map g l) = true.
Proof.
  intros Hg. unfold none_streaming. induction l as [|m l IH]; [reflexivity|].
  cbn [map forallb]. intros [Hm Hl]%andb_prop.
  apply Bool.negb_true_iff in Hm. rewrite (Hg m Hm), (IH Hl). reflexivity.
Qed.

Lemma single_streaming_map (g : ChatMessage -> ChatMessage) (l : list ChatMessage) :
  (forall m, streaming_assistant m = false -> streaming_assistant (g m) = false) ->
  single_streaming l = true -> single_streaming (map g l) = true.
Proof.
  intros Hg. unfold single_streaming. rewrite removelast_map.
  now apply none_streaming_map.
Qed.

Lemma none_streaming_snoc (l : list ChatMessage) (m : ChatMessage) :
  none_streaming (l ++ [m]) = none_streaming l && negb (streaming_assistant m).
Proof.
  unfold none_streaming. rewrite forallb_app. cbn [forallb].
  now rewrite Bool.andb_true_r.
Qed.

Lemma single_streaming_snoc (l : list ChatMessage) (m : ChatMessage) :
  single_streaming (l ++ [m]) = none_streaming l.
Proof. unfold single_streaming. now rewrite removelast_last. Qed.

(** Neither update that the callback makes can mark a message as
    streaming. *)
Lemma update_keeps_not_streaming (aid : string) (updates : MessageUpdates) (m : ChatMessage) :
  up_type updates = None ->
  up_streaming updates <> Some true ->
  streaming_assistant m = false ->
  streaming_assistant
    (if String.eqb (msg_id m) aid then spread_message m updates else m) = false.
Proof.
  intros Hty Hst Hm. destruct (String.eqb (msg_id m) aid); [|exact Hm].
  unfold streaming_assistant, spread_message in *. cbn. rewrite Hty. cbn.
  destruct (up_streaming updates) as [[|]|]; [congruence| |exact Hm].
  rewrite (bool_decide_eq_false_2 (Some false = Some true)) by discriminate.
  apply Bool.andb_false_r.
Qed.

Section StreamingFlag.
Context (env : Env).

Lemma onEvent_single_streaming (e : StreamingEvent) (ch : Closure * Hook) :
  single_streaming (messages (state (snd ch))) = true ->
  single_streaming (messages (state (snd (onEvent env e ch)))) = true.
Proof.
  destruct ch as [c h]. cbn [snd]. intros H. rewrite onEvent_messages.
  destruct (ev_type e); try exact H;
    (apply single_streaming_map; [|exact H]);
    intros m; apply update_keeps_not_streaming; (reflexivity || discriminate).
Qed.






End StreamingFlag.




(** ** Tool calls *)

Section ToolFacts.
Context (env : Env).

Lemma complete_matching_app (toolName : option string) (result : option JsValue)
    (l1 l2 : list ToolCall) (reads : nat) :
  complete_matching env toolName result (l1 ++ l2) reads
  = let '(r1, k1) := complete_matching env toolName result l1 reads in
    let '(r2, k2) := complete_matching env toolName result l2 k1 in
    (r1 ++ r2, k2).
Proof.
  revert reads. induction l1 as [|call l1 IH]; intros reads.
  - cbn. now destruct (complete_matching env toolName result l2 reads).
  - cbn [app complete_matching].
    destruct (_ && _); rewrite IH;
      destruct (complete_matching env toolName result l1 _) as [r1 k1];
      destruct (complete_matching env toolName result l2 k1) as [r2 k2];
      reflexivity.
Qed.

Lemma complete_matching_none (name : string) (result : option JsValue)
    (calls : list ToolCall) (reads : nat) :
  forallb (fun t => negb (matches name t)) calls = true ->
  complete_matching env (Some name) result calls reads = (calls, reads).
Proof.
  induction calls as [|call calls IH]; [reflexivity|].
  cbn [forallb complete_matching]. intros [Hc Hl]%andb_prop.
  apply Bool.negb_true_iff in Hc. unfold matches in Hc. rewrite Hc, (IH Hl).
  reflexivity.
Qed.

(** What a [tool_call] event does: one running call is appended. *)
Lemma onEvent_tool_call (e : StreamingEvent) (c : Closure) (h : Hook) :
  ev_type e = tool_call ->
  let k := clock_reads h + callId_reads (ev_metadata e) in
  let h' := snd (onEvent env e (c, h)) in
  toolCalls (state h')
  = toolCalls (state h)
    ++ [{| tc_id := pretty (date_now env k) +:+ "-" +:+ math_random env (random_draws h);
           tc_name := str_or (md_tool_name (ev_metadata e)) "unknown";
           tc_args := default (JObj []) (js_or (md_tool_args (ev_metadata e))
                                          (Some (JObj [])));
           tc_timestamp := date_now env (S k);
           tc_status := running;
           tc_result := None; tc_error := None; tc_duration := None |}]
  /\ clock_reads h' = S (S k)
  /\ updater_reads h' = updater_reads h.
Proof.
  intros Hkind. unfold onEvent, callId_reads. rewrite Hkind.
  destruct (md_call_id (ev_metadata e)) as [id|];
    [destruct (String.eqb id EmptyString)|]; cbn;
    rewrite ?Nat.add_0_r, ?Nat.add_1_r; repeat split; reflexivity.
Qed.

(** What a [tool_response] event does to the table of tool calls. *)
Lemma onEvent_tool_response (e : StreamingEvent) (c : Closure) (h : Hook) :
  ev_type e = tool_response ->
  toolCalls (state (snd (onEvent env e (c, h))))
  = fst (complete_matching env (md_tool_name (ev_metadata e))
           (js_or (md_raw_response (ev_metadata e)) (md_tool_result (ev_metadata e)))
           (toolCalls (state h)) (updater_reads h)).
Proof.
  intros Hkind. unfold onEvent. rewrite Hkind.
  now destruct (complete_matching env _ _ _ _).
Qed.

(** The clock readings a [tool_response] event costs: none of the hook's
    own, one of the updater's for every call it completes. *)
Lemma onEvent_tool_response_reads (e : StreamingEvent) (c : Closure) (h : Hook) :
  ev_type e = tool_response ->
  updater_reads (snd (onEvent env e (c, h)))
  = snd (complete_matching env (md_tool_name (ev_metadata e))
           (js_or (md_raw_response (ev_metadata e)) (md_tool_result (ev_metadata e)))
           (toolCalls (state h)) (updater_reads h))
  /\ clock_reads (snd (onEvent env e (c, h))) = clock_reads h.
Proof.
  intros Hkind. unfold onEvent. rewrite Hkind.
  now destruct (complete_matching env _ _ _ _).
Qed.

End ToolFacts.

(** C2 fails on the code: [response_id] is read and never used.  With
    two running calls of one tool, a response that carries the id of the
    first and the tool's name completes both calls; a response that
    carries the id of the call and no tool name completes nothing. *)
Lemma response_id_is_not_consulted :
  let opened := handleStreamingResponse_open sample_env (useAgentChat "agent") in
  let call1 := tool_event tool_call (Some "calc") (Some "c1") None None None in
  let call2 := tool_event tool_call (Some "calc") (Some "c2") None None None in
  let table evs := brief_call <$> toolCalls (state (snd (apply_events sample_env evs opened))) in
  table [call1; call2;
         tool_event tool_response (Some "calc") None (Some "c1") (Some (JStr "42")) None]
  = [("calc", completed, Some (JStr "42")); ("calc", completed, Some (JStr "42"))]
  /\ table [call1;
            tool_event tool_response None None (Some "c1") (Some (JStr "42")) None]
     = [("calc", running, None)].
Proof. vm_compute. repeat split. Qed.

(** What the code does with a pair.  A [tool_call] event appends one
    running call under the event's tool name (["unknown"] when it has
    none), stamped with the clock as the hook reads it.  A
    [tool_response] event that carries that tool name, applied next in a
    state that held no other running call of that name, leaves exactly
    that call changed: its status is [completed], its result is
    [raw_response || tool_result] (so a falsy [raw_response] gives way to
    [tool_result]), and its duration is the clock as the updater reads it
    minus the time stamp of the call.  Neither [call_id] nor
    [response_id] takes part, and the response costs the hook no clock
    reading of its own. *)
Theorem tool_pair_completes_by_name (env : Env) (c : Closure) (h : Hook)
    (call resp : StreamingEvent) (name : string) :
  ev_type call = tool_call ->
  ev_type resp = tool_response ->
  str_or (md_tool_name (ev_metadata call)) "unknown" = name ->
  md_tool_name (ev_metadata resp) = Some name ->
  forallb (fun t => negb (matches name t)) (toolCalls (state h)) = true ->
  let startedAt :=
    date_now env (S (clock_reads h + callId_reads (ev_metadata call))) in
  let h' := snd (onEvent env resp (onEvent env call (c, h))) in
  (exists t,
    toolCalls (state h') = toolCalls (state h) ++ [t]
    /\ tc_name t = name
    /\ tc_status t = completed
    /\ tc_result t = js_or (md_raw_response (ev_metadata resp))
                       (md_tool_result (ev_metadata resp))
    /\ tc_timestamp t = startedAt
    /\ tc_duration t = Some (updater_now env (updater_reads h) - startedAt)%Z)
  /\ updater_reads h' = S (updater_reads h)
  /\ clock_reads h' = clock_reads (snd (onEvent env call (c, h))).
Proof.
  intros Hcall Hresp Hname Hsame Hfree. cbn zeta.
  destruct (onEvent env call (c, h)) as [c1 h1] eqn:Hstep.
  pose proof (onEvent_tool_call env call c h Hcall) as Hadd.
  rewrite Hstep in Hadd. cbn [snd] in Hadd. cbn zeta in Hadd.
  destruct Hadd as (Hcalls & Hreads & Hupd).
  split.
  - rewrite onEvent_tool_response by exact Hresp.
    rewrite Hsame, Hcalls, Hupd, Hname, complete_matching_app.
    rewrite complete_matching_none by exact Hfree.
    cbn [complete_matching tc_name tc_status].
    rewrite String.eqb_refl. cbn [andb bool_decide decide_rel]. cbn.
    eexists. split; [reflexivity|]. cbn. repeat split.
  - destruct (onEvent_tool_response_reads env resp c1 h1 Hresp) as [-> ->].
    rewrite Hsame, Hcalls, Hupd, Hname, complete_matching_app.
    rewrite complete_matching_none by exact Hfree.
    cbn [complete_matching tc_name tc_status].
    rewrite String.eqb_refl. cbn [andb bool_decide decide_rel]. cbn.
    split; reflexivity.
Qed.

Lemma tool_pair_completes_by_name_witness :
  exists t,
    toolCalls (state (snd (apply_events sample_env
                             [tool_event tool_call (Some "calc") (Some "c1") None None None;
                              tool_event tool_response (Some "calc") None (Some "c1")
                                (Some (JNum 0)) (Some (JStr "stale"))]
                             (handleStreamingResponse_open sample_env (useAgentChat "agent")))))
    = [t]
    /\ brief_call t = ("calc", completed, Some (JStr "stale"))
    /\ tc_timestamp t = 1003%Z
    /\ tc_duration t = Some 1%Z.
Proof.
  destruct (handleStreamingResponse_open sample_env (useAgentChat "agent")) as [c h] eqn:Hopen.
  destruct (tool_pair_completes_by_name sample_env c h
              (tool_event tool_call (Some "calc") (Some "c1") None None None)
              (tool_event tool_response (Some "calc") None (Some "c1")
                 (Some (JNum 0)) (Some (JStr "stale")))
              "calc")
    as ((t & Hcalls & Hn & Hs & Hr & Ht & Hd) & _).
  - reflexivity.
  - reflexivity.
  - reflexivity.
  - reflexivity.
  - injection Hopen as <- <-. reflexivity.
  - injection Hopen as <- <-.
    exists t. split; [exact Hcalls|].
    split; [unfold brief_call; now rewrite Hn, Hs, Hr|].
    split; [rewrite Ht | rewrite Hd]; reflexivity.
Defined.

(** ** Replaying a sequence of events *)

Section ReplayFacts.
Context (env1 env2 : Env).

Lemma erase_spread (m1 m2 : ChatMessage) (u : MessageUpdates) :
  up_id u = None -> up_timestamp u = None ->
  erase_message m1 = erase_message m2 ->
  erase_message (spread_message m1 u) = erase_message (spread_message m2 u).
Proof.
  intros Hid Hts H.
  pose proof (f_equal msg_type H) as Hty.
  pose proof (f_equal msg_content H) as Hc.
  pose proof (f_equal msg_metadata H) as Hmd.
  pose proof (f_equal msg_streaming H) as Hst.
  pose proof (f_equal msg_events H) as Hev.
  cbn in Hty, Hc, Hmd, Hst, Hev.
  unfold erase_message, spread_message. cbn.
  now rewrite Hty, Hc, Hmd, Hst, Hev.
Qed.

Lemma erase_complete_matching (toolName : option string) (result : option JsValue)
    (l1 l2 : list ToolCall) (k1 k2 : nat) :
  map erase_toolCall l1 = map erase_toolCall l2 ->
  map erase_toolCall (fst (complete_matching env1 toolName result l1 k1))
  = map erase_toolCall (fst (complete_matching env2 toolName result l2 k2)).
Proof.
  revert l2 k1 k2. induction l1 as [|t1 l1 IH]; intros [|t2 l2] k1 k2 H;
    try discriminate; [reflexivity|].
  cbn [map] in H.
  assert (Ht : erase_toolCall t1 = erase_toolCall t2) by congruence.
  assert (Hl : map erase_toolCall l1 = map erase_toolCall l2) by congruence.
  pose proof (f_equal tc_name Ht) as Hname.
  pose proof (f_equal tc_args Ht) as Hargs.
  pose proof (f_equal tc_status Ht) as Hstatus.
  pose proof (f_equal tc_result Ht) as Hres.
  pose proof (f_equal tc_error Ht) as Herr.
  pose proof (f_equal tc_duration Ht) as Hdur.
  cbn in Hname, Hargs, Hstatus, Hres, Herr, Hdur.
  cbn [complete_matching]. rewrite Hname, Hstatus.
  destruct (_ && _).
  - specialize (IH l2 (S k1) (S k2) Hl).
    destruct (complete_matching env1 toolName result l1 (S k1)) as [r1 k1'].
    destruct (complete_matching env2 toolName result l2 (S k2)) as [r2 k2'].
    cbn [fst map] in *. rewrite IH. f_equal.
    unfold erase_toolCall. cbn. now rewrite ?Hname, ?Hargs, ?Herr.
  - specialize (IH l2 k1 k2 Hl).
    destruct (complete_matching env1 toolName result l1 k1) as [r1 k1'].
    destruct (complete_matching env2 toolName result l2 k2) as [r2 k2'].
    cbn [fst map] in *. now rewrite IH, Ht.
Qed.

Lemma erase_fail_running (message : string) (l1 l2 : list ToolCall) :
  map erase_toolCall l1 = map erase_toolCall l2 ->
  map erase_toolCall (fail_running message l1)
  = map erase_toolCall (fail_running message l2).
Proof.
  revert l2. induction l1 as [|t1 l1 IH]; intros [|t2 l2] H;
    try discriminate; [reflexivity|].
  cbn [map] in H.
  assert (Ht : erase_toolCall t1 = erase_toolCall t2) by congruence.
  assert (Hl : map erase_toolCall l1 = map erase_toolCall l2) by congruence.
  pose proof (f_equal tc_name Ht) as Hname.
  pose proof (f_equal tc_args Ht) as Hargs.
  pose proof (f_equal tc_status Ht) as Hstatus.
  pose proof (f_equal tc_result Ht) as Hres.
  pose proof (f_equal tc_error Ht) as Herr.
  pose proof (f_equal tc_duration Ht) as Hdur.
  cbn in Hname, Hargs, Hstatus, Hres, Herr, Hdur.
  unfold fail_running in *. cbn [map]. rewrite (IH l2 Hl), Hstatus.
  f_equal. destruct (bool_decide _); [|exact Ht].
  unfold erase_toolCall. cbn. now rewrite ?Hname, ?Hargs, ?Hres, ?Hdur.
Qed.

End ReplayFacts.

(** The whole effect of one event on the state. *)
Lemma onEvent_state (env : Env) (e : StreamingEvent) (c : Closure) (h : Hook) :
  state (snd (onEvent env e (c, h)))
  = let s := set_streamingEvents (streamingEvents (state h) ++ [e]) (state h) in
    match ev_type e with
    | content =>
        set_messages
          (map (fun msg =>
                  if String.eqb (msg_id msg) (assistantMessageId c)
                  then spread_message msg
                         (content_updates (fullContent c +:+ ev_content e) (events c ++ [e]))
                  else msg)
               (messages s)) s
    | complete =>
        set_messages
          (map (fun msg =>
                  if String.eqb (msg_id msg) (assistantMessageId c)
                  then spread_message msg
                         (complete_updates (ev_metadata e) (length (events c ++ [e])))
                  else msg)
               (messages s)) s
    | tool_call =>
        let k := clock_reads h + callId_reads (ev_metadata e) in
        set_toolCalls
          (toolCalls s
           ++ [{| tc_id := pretty (date_now env k) +:+ "-"
                             +:+ math_random env (random_draws h);
                  tc_name := str_or (md_tool_name (ev_metadata e)) "unknown";
                  tc_args := default (JObj []) (js_or (md_tool_args (ev_metadata e))
                                                 (Some (JObj [])));
                  tc_timestamp := date_now env (S k);
                  tc_status := running;
                  tc_result := None; tc_error := None; tc_duration := None |}]) s
    | tool_response =>
        set_toolCalls
          (fst (complete_matching env (md_tool_name (ev_metadata e))
                  (js_or (md_raw_response (ev_metadata e)) (md_tool_result (ev_metadata e)))
                  (toolCalls s) (updater_reads h))) s
    | error =>
        set_toolCalls (fail_running (ev_content e) (toolCalls s))
          (set_error (Some (ev_content e)) s)
    | start | tool_result | thinking | metadata => s
    end.
Proof.
  unfold onEvent, callId_reads. destruct (ev_type e).
  - reflexivity.
  - reflexivity.
  - destruct (md_call_id (ev_metadata e)) as [id|];
      [destruct (String.eqb id EmptyString)|]; cbn;
      rewrite ?Nat.add_0_r, ?Nat.add_1_r; reflexivity.
  - cbn. now destruct (complete_matching env _ _ _ _).
  - reflexivity.
  - reflexivity.
  - reflexivity.
  - reflexivity.
  - reflexivity.
Qed.

Section ReplayStep.
Context (env1 env2 : Env).

Lemma same_turn_step (e : StreamingEvent) (ch1 ch2 : Closure * Hook) :
  same_turn ch1 ch2 -> same_turn (onEvent env1 e ch1) (onEvent env2 e ch2).
Proof.
  destruct ch1 as [c1 h1], ch2 as [c2 h2]. unfold same_turn. cbn [fst snd].
  intros (Hfull & Hev & Herase & (m1 & Hm1 & Hid1) & (m2 & Hm2 & Hid2)).
  pose proof (f_equal messages Herase) as Emsgs.
  pose proof (f_equal isLoading Herase) as Eload.
  pose proof (f_equal isStreaming Herase) as Estream.
  pose proof (f_equal currentAgent Herase) as Eagent.
  pose proof (f_equal error_ Herase) as Eerr.
  pose proof (f_equal toolCalls Herase) as Etools.
  pose proof (f_equal streamingEvents Herase) as Eevs.
  cbn in Emsgs, Eload, Estream, Eagent, Eerr, Etools, Eevs.
  rewrite Hm1, Hm2 in Emsgs. cbn [map] in Emsgs.
  assert (Em : erase_message m1 = erase_message m2) by congruence.
  rewrite !onEvent_closure, !onEvent_state.
  cbn [fullContent events assistantMessageId].
  rewrite Hfull, Hev.
  split; [reflexivity|]. split; [reflexivity|].
  unfold erase_state.
  destruct (ev_type e); cbn -[complete_matching fail_running erase_message erase_toolCall];
    rewrite ?Hm1, ?Hm2; cbn [map];
    rewrite ?Hid1, ?Hid2, ?String.eqb_refl;
    rewrite ?Eload, ?Estream, ?Eagent, ?Eerr, ?Eevs.
  - (* start *)
    rewrite Em, Etools. repeat split; eauto.
  - (* content *)
    rewrite (erase_spread m1 m2) by (reflexivity || exact Em).
    rewrite Etools. repeat split; eexists; (split; [reflexivity|]);
      (exact Hid1 || exact Hid2).
  - (* tool_call *)
    rewrite !map_app, Etools, Em. repeat split; eauto.
  - (* tool_response *)
    rewrite (erase_complete_matching env1 env2 _ _ _ _ (updater_reads h1) (updater_reads h2) Etools).
    rewrite Em. repeat split; eauto.
  - (* tool_result *)
    rewrite Em, Etools. repeat split; eauto.
  - (* thinking *)
    rewrite Em, Etools. repeat split; eauto.
  - (* error *)
    rewrite (erase_fail_running _ _ _ Etools), Em. repeat split; eauto.
  - (* complete *)
    rewrite (erase_spread m1 m2) by (reflexivity || exact Em).
    rewrite Etools. repeat split; eexists; (split; [reflexivity|]);
      (exact Hid1 || exact Hid2).
  - (* metadata *)
    rewrite Em, Etools. repeat split; eauto.
Qed.

Lemma same_turn_events (evs : list StreamingEvent) (ch1 ch2 : Closure * Hook) :
  same_turn ch1 ch2 -> same_turn (apply_events env1 evs ch1) (apply_events env2 evs ch2).
Proof.
  revert ch1 ch2. induction evs as [|e evs IH]; intros ch1 ch2 H; [exact H|].
  apply IH, same_turn_step, H.
Qed.

Lemma same_turn_open (agentId : string) :
  same_turn (handleStreamingResponse_open env1 (useAgentChat agentId))
            (handleStreamingResponse_open env2 (useAgentChat agentId)).
Proof.
  unfold same_turn. cbn. repeat split; eexists; split; reflexivity.
Qed.

End ReplayStep.

(** C9, as the specification states it, fails: the final state is not a
    function of the events alone.  The same two events replayed under two
    clocks give two different states: the timestamps and the measured
    duration differ. *)
Lemma replay_depends_on_the_clock :
  let evs := [tool_event tool_call (Some "calc") (Some "c1") None None None;
              tool_event tool_response (Some "calc") None (Some "c1")
                (Some (JStr "42")) None] in
  let slow := env_of (ticking 1000 7) [] in
  tc_duration <$> toolCalls (replay sample_env "agent" evs) = [Some 1%Z]
  /\ tc_duration <$> toolCalls (replay slow "agent" evs) = [Some 7%Z]
  /\ replay sample_env "agent" evs <> replay slow "agent" evs.
Proof.
  cbn zeta. split; [reflexivity|]. split; [reflexivity|].
  intros H. apply (f_equal (fun s => tc_duration <$> toolCalls s)) in H.
  vm_compute in H. discriminate H.
Qed.

(** C9, amended.  Replaying the same events twice gives two states that
    differ at most in what the clock and the random source put into them:
    the generated ids of messages and tool calls, their timestamps, and
    the durations of completed tool calls.  Everything else (the text, the
    flags, the recorded events, the names, arguments, status, results and
    errors of the tool calls, and whether a duration is present) is a
    function of the event sequence. *)
Theorem replay_is_deterministic_up_to_clock (env1 env2 : Env) (agentId : string)
    (evs : list StreamingEvent) :
  erase_state (replay env1 agentId evs) = erase_state (replay env2 agentId evs).
Proof.
  unfold replay.
  destruct (same_turn_events env1 env2 evs _ _ (same_turn_open env1 env2 agentId))
    as (_ & _ & H & _).
  exact H.
Qed.

(** ** The two readings of [sendMessage] agree *)

Section Agreement.
Context (env : Env).

Lemma onEvent_aborted (signal : nat) (e : StreamingEvent) (ch : Closure * Hook) :
  aborted signal (snd ch) = false -> aborted signal (snd (onEvent env e ch)) = false.
Proof.
  destruct ch as [c h]. unfold aborted.
  destruct (onEvent_flags env e c h) as (_ & _ & _ & ->). trivial.
Qed.

Lemma resume_n_S (n : nat) (p : Pending) (h : Hook) :
  resume_n env (S n) (Some p) h
  = let '(p', h') := resume env p h in resume_n env n p' h'.
Proof. reflexivity. Qed.

(** Resuming a call that awaits a read until it settles does what the
    loop of [streamAgent], run without interruption, does. *)
Lemma resume_n_read_loop (signal : nat) (chunks : list string) (ending : BodyEnd)
    (buffer : string) (c : Closure) (h : Hook) (w : list string) :
  aborted signal h = false ->
  let o := read_loop env (json_parse env) (returning (onEvent env)) false chunks ending
             buffer (c, h) w in
  resume_n env (S (length chunks)) (Some (AwaitRead c signal buffer chunks ending)) h
  = (None, settle (thrown_of (completion o)) (snd (final o))).
Proof.
  revert buffer c h w. induction chunks as [|value chunks IH]; intros buffer c h w Hab.
  - cbn. rewrite Hab. destruct ending; reflexivity.
  - cbn [length resume_n resume read_loop]. rewrite Hab. unfold on_chunk.
    pose proof (for_lines_warnings (json_parse env) (returning (onEvent env))
                  (removelast (split newline (buffer +:+ value))) (c, h) [] w) as Hw.
    pose proof (for_lines_invariant (json_parse env) (returning (onEvent env))
                  (fun ch => aborted signal (snd ch) = false)
                  (removelast (split newline (buffer +:+ value))) (c, h) []
                  (onEvent_aborted signal) Hab) as Hinv.
    destruct (for_lines (json_parse env) (returning (onEvent env)) _ (c, h) []) as [[c1 h1] w1|[c1 h1] w1];
      destruct (for_lines (json_parse env) (returning (onEvent env)) _ (c, h) w) as [[c2 h2] w2|[c2 h2] w2];
      cbn in Hw, Hinv; try discriminate; injection Hw as <- <-.
    + apply IH, Hinv.
    + destruct chunks; reflexivity.
Qed.

(** Resuming a call until it settles, with nothing else happening in
    between, is running [sendMessage] without interruption. *)
Lemma resume_n_sendMessage (content_ : string) (useStreaming : bool) (server : Server)
    (h : Hook) :
  exists n,
    resume_n env n (Some (fst (sendMessage_call env content_ useStreaming server h)))
      (snd (sendMessage_call env content_ useStreaming server h))
    = (None, sendMessage env content_ useStreaming server h).
Proof.
  unfold sendMessage_call, sendMessage.
  pose proof (fresh_signal_not_aborted env content_ useStreaming h) as Hsig.
  destruct (sendMessage_prologue env content_ useStreaming h) as [signal hp].
  destruct Hsig as [Hp Ho]. destruct useStreaming.
  - unfold handleStreamingResponse, streamAgent.
    destruct (handleStreamingResponse_open env hp) as [c ho]. cbn [fst snd] in *.
    rewrite Ho.
    destruct (stream_endpoint server) as [e|errorData statusText| |chunks ending].
    + exists 1. cbn. rewrite Ho. reflexivity.
    + exists 1. cbn. rewrite Ho. reflexivity.
    + exists 1. cbn. rewrite Ho. reflexivity.
    + exists (S (S (length chunks))).
      rewrite resume_n_S. cbn [resume]. rewrite Ho. cbn [fetch_failure].
      rewrite (resume_n_read_loop signal chunks ending EmptyString c ho [] Ho).
      destruct (completion _); reflexivity.
  - exists 1. cbn [fst snd resume_n resume].
    destruct (handleSyncResponse env signal (agent_endpoint server) hp); reflexivity.
Qed.

End Agreement.

(** * Further properties of the decoder *)

(** However the text of a body is cut into chunks, the call does the same:
    the same events in the same order, the same warnings, the same end. *)
Theorem chunking_is_immaterial (env : Env) {E S : Type}
    (JSON_parse : string -> option E) (onEvent : E -> S -> Called S)
    (chunks chunks' : list string) (ending : BodyEnd) (st : S) :
  received chunks = received chunks' ->
  streamAgent env JSON_parse onEvent false (Streams chunks ending) st
  = streamAgent env JSON_parse onEvent false (Streams chunks' ending) st.
Proof. intros H. now rewrite !streamAgent_lines, H. Qed.

Lemma chunking_is_immaterial_witness :
  streamAgent sample_env (json_parse sample_env) (returning collect) false
    (Streams [frame ok_payload] Closed) []
  = streamAgent sample_env (json_parse sample_env) (returning collect) false
      (Streams ["da"; "ta: " +:+ ok_payload; nl] Closed) [].
Proof.
  apply (chunking_is_immaterial sample_env (json_parse sample_env) (returning collect)
           [frame ok_payload] ["da"; "ta: " +:+ ok_payload; nl] Closed []).
  reflexivity.
Defined.

(** Once a terminated sentinel line has been read the call is over:
    whatever the server sends after it, and however the body ends, the
    outcome is that of the body up to the sentinel. *)
Theorem nothing_is_decoded_after_the_sentinel (env : Env) {E S : Type}
    (JSON_parse : string -> option E) (onEvent : E -> S -> Called S)
    (chunks chunks' : list string) (tail : string) (ending : BodyEnd) (st : S) :
  completion (streamAgent env JSON_parse onEvent false (Streams chunks Closed) st)
  = BySentinel ->
  received chunks' = received chunks +:+ tail ->
  streamAgent env JSON_parse onEvent false (Streams chunks' ending) st
  = streamAgent env JSON_parse onEvent false (Streams chunks Closed) st.
Proof.
  rewrite !streamAgent_lines. intros Hdone ->.
  rewrite terminated_lines_append, for_lines_app.
  destruct (for_lines JSON_parse onEvent (terminated_lines (received chunks)) st [])
    as [st' w'|st' w']; [discriminate Hdone | reflexivity].
Qed.

Lemma nothing_is_decoded_after_the_sentinel_witness :
  streamAgent sample_env (json_parse sample_env) (returning collect) false
    (Streams [frame ok_payload; frame DONE; frame ok_payload; "{"]
       (Broken (ErrorObject "network error"))) []
  = streamAgent sample_env (json_parse sample_env) (returning collect) false
      (Streams [frame ok_payload; frame DONE] Closed) [].
Proof.
  apply (nothing_is_decoded_after_the_sentinel sample_env (json_parse sample_env)
           (returning collect)
           [frame ok_payload; frame DONE]
           [frame ok_payload; frame DONE; frame ok_payload; "{"]
           (frame ok_payload +:+ "{")).
  - reflexivity.
  - reflexivity.
Defined.

(** A line that does not start with [data: ] (an empty line, a comment, an
    [event:] field) has no effect wherever it stands: no event, no
    warning, and the lines around it are treated as if it were absent. *)
Theorem other_lines_are_ignored {E S : Type}
    (JSON_parse : string -> option E) (onEvent : E -> S -> Called S) (line : string)
    (before rest : list string) (st : S) (warnings : list string) :
  startsWith DATA_PREFIX line = false ->
  for_lines JSON_parse onEvent (before ++ line :: rest) st warnings
  = for_lines JSON_parse onEvent (before ++ rest) st warnings.
Proof.
  intros Hline. rewrite !for_lines_app.
  destruct (for_lines JSON_parse onEvent before st warnings) as [st' w'|st' w'];
    [|reflexivity].
  cbn [for_lines]. now rewrite Hline.
Qed.

Lemma other_lines_are_ignored_witness :
  for_lines (json_parse sample_env) (returning collect)
    ([DATA_PREFIX +:+ ok_payload] ++ ": keep-alive" :: [DATA_PREFIX +:+ ok_payload]) [] []
  = for_lines (json_parse sample_env) (returning collect)
      ([DATA_PREFIX +:+ ok_payload] ++ [DATA_PREFIX +:+ ok_payload]) [] [].
Proof.
  apply (other_lines_are_ignored (json_parse sample_env) (returning collect) ": keep-alive").
  reflexivity.
Defined.

(** * Further properties of the table of tool calls *)

Section ToolTable.
Context (env : Env).

Lemma complete_matching_length (toolName : option string) (result : option JsValue)
    (calls : list ToolCall) (reads : nat) :
  length (fst (complete_matching env toolName result calls reads)) = length calls.
Proof.
  revert reads. induction calls as [|call calls IH]; intros reads; [reflexivity|].
  cbn [complete_matching]. destruct (_ && _).
  - specialize (IH (S reads)).
    destruct (complete_matching env toolName result calls (S reads)). cbn in *. now rewrite IH.
  - specialize (IH reads).
    destruct (complete_matching env toolName result calls reads). cbn in *. now rewrite IH.
Qed.

Lemma complete_matching_settled (toolName : option string) (result : option JsValue)
    (calls : list ToolCall) (reads i : nat) (t : ToolCall) :
  calls !! i = Some t -> tc_status t <> running ->
  fst (complete_matching env toolName result calls reads) !! i = Some t.
Proof.
  revert reads i. induction calls as [|call calls IH]; intros reads i Hi Hst;
    [discriminate|].
  cbn [complete_matching]. destruct i as [|i].
  - cbn in Hi. injection Hi as ->.
    rewrite (bool_decide_eq_false_2 _ Hst), Bool.andb_false_r.
    now destruct (complete_matching env toolName result calls reads).
  - cbn in Hi. destruct (_ && _).
    + specialize (IH (S reads) i Hi Hst).
      now destruct (complete_matching env toolName result calls (S reads)).
    + specialize (IH reads i Hi Hst).
      now destruct (complete_matching env toolName result calls reads).
Qed.

Lemma complete_matching_unnamed (result : option JsValue) (calls : list ToolCall)
    (reads : nat) :
  complete_matching env None result calls reads = (calls, reads).
Proof.
  induction calls as [|call calls IH]; [reflexivity|].
  cbn [complete_matching andb]. now rewrite IH.
Qed.

Lemma fail_running_settled (message : string) (calls : list ToolCall) (i : nat)
    (t : ToolCall) :
  calls !! i = Some t -> tc_status t <> running ->
  fail_running message calls !! i = Some t.
Proof.
  intros Hi Hst. unfold fail_running. rewrite list_lookup_fmap, Hi. cbn.
  now rewrite (bool_decide_eq_false_2 _ Hst).
Qed.

Lemma onEvent_settled (e : StreamingEvent) (ch : Closure * Hook) (i : nat) (t : ToolCall) :
  toolCalls (state (snd ch)) !! i = Some t -> tc_status t <> running ->
  toolCalls (state (snd (onEvent env e ch))) !! i = Some t.
Proof.
  destruct ch as [c h]. cbn [snd]. intros Hi Hst. rewrite onEvent_state. cbn zeta.
  destruct (ev_type e); cbn; try exact Hi.
  - now apply lookup_app_l_Some.
  - now apply complete_matching_settled.
  - now apply fail_running_settled.
Qed.

Lemma onEvent_toolCalls_length (e : StreamingEvent) (ch : Closure * Hook) :
  length (toolCalls (state (snd (onEvent env e ch))))
  = length (toolCalls (state (snd ch)))
    + (if bool_decide (ev_type e = tool_call) then 1 else 0).
Proof.
  destruct ch as [c h]. cbn [snd]. rewrite onEvent_state. cbn zeta.
  destruct (ev_type e); cbn; rewrite ?Nat.add_0_r; try reflexivity.
  - rewrite length_app. reflexivity.
  - apply complete_matching_length.
  - unfold fail_running. now rewrite length_map.
Qed.

Lemma complete_matching_ids (toolName : option string) (result : option JsValue)
    (calls : list ToolCall) (reads : nat) :
  map tc_id (fst (complete_matching env toolName result calls reads)) = map tc_id calls.
Proof.
  revert reads. induction calls as [|call calls IH]; intros reads; [reflexivity|].
  cbn [complete_matching]. destruct (_ && _).
  - specialize (IH (S reads)).
    destruct (complete_matching env toolName result calls (S reads)). cbn in *. now rewrite IH.
  - specialize (IH reads).
    destruct (complete_matching env toolName result calls reads). cbn in *. now rewrite IH.
Qed.

Lemma fail_running_ids (message : string) (calls : list ToolCall) :
  map tc_id (fail_running message calls) = map tc_id calls.
Proof.
  unfold fail_running. induction calls as [|call calls IH]; [reflexivity|].
  cbn [map]. rewrite IH. now destruct (bool_decide _).
Qed.

(** The ids of the calls that were in the table are, after one event, the
    ids of the first calls of the table. *)
Lemma onEvent_toolCalls_ids (e : StreamingEvent) (ch : Closure * Hook) :
  take (length (toolCalls (state (snd ch))))
    (map tc_id (toolCalls (state (snd (onEvent env e ch)))))
  = map tc_id (toolCalls (state (snd ch))).
Proof.
  destruct ch as [c h]. cbn [snd]. rewrite onEvent_state. cbn zeta.
  rewrite <- (length_map tc_id (toolCalls (state h))).
  destruct (ev_type e); cbn [toolCalls set_toolCalls set_messages set_error set_streamingEvents];
    rewrite ?firstn_all; try reflexivity.
  - rewrite map_app, take_app_length. reflexivity.
  - rewrite <- (complete_matching_ids (md_tool_name (ev_metadata e))
                  (js_or (md_raw_response (ev_metadata e)) (md_tool_result (ev_metadata e)))
                  (toolCalls (state h)) (updater_reads h)) at 1.
    now rewrite firstn_all, complete_matching_ids.
  - rewrite <- (fail_running_ids (ev_content e) (toolCalls (state h))) at 1.
    now rewrite firstn_all, fail_running_ids.
Qed.

End ToolTable.

(** A tool call that is not running is never touched again: whatever
    events follow, in this turn or a later one, it keeps its place in the
    table and every one of its fields.  Status only ever moves away from
    [running]. *)
Theorem settled_calls_are_never_changed (env : Env) (evs : list StreamingEvent)
    (ch : Closure * Hook) (i : nat) (t : ToolCall) :
  toolCalls (state (snd ch)) !! i = Some t ->
  tc_status t <> running ->
  toolCalls (state (snd (apply_events env evs ch))) !! i = Some t.
Proof.
  revert ch. induction evs as [|e evs IH]; intros ch Hi Hst; [exact Hi|].
  apply IH; [|exact Hst]. now apply onEvent_settled.
Qed.

Lemma settled_calls_are_never_changed_witness :
  let done := {| tc_id := "1-a"; tc_name := "calc"; tc_args := JObj [];
                 tc_timestamp := 1; tc_status := completed;
                 tc_result := Some (JStr "42"); tc_error := None;
                 tc_duration := Some 5%Z |} in
  let h := setState (set_toolCalls [done]) (useAgentChat "agent") in
  toolCalls (state (snd (apply_events sample_env
                           [tool_event tool_response (Some "calc") None None
                              (Some (JStr "43")) None;
                            event_of error "boom" no_metadata]
                           (handleStreamingResponse_open sample_env h)))) !! 0
  = Some done.
Proof.
  cbn zeta.
  apply (settled_calls_are_never_changed sample_env).
  - reflexivity.
  - discriminate.
Defined.

Lemma apply_events_toolCalls_length (env : Env) (evs : list StreamingEvent)
    (ch : Closure * Hook) :
  length (toolCalls (state (snd (apply_events env evs ch))))
  = length (toolCalls (state (snd ch))) + tool_call_count evs.
Proof.
  revert ch. induction evs as [|e evs IH]; intros ch.
  - cbn. now rewrite Nat.add_0_r.
  - cbn [apply_events fold_left]. fold (apply_events env evs (onEvent env e ch)).
    rewrite IH, onEvent_toolCalls_length. unfold tool_call_count. cbn [List.filter].
    destruct (bool_decide (ev_type e = tool_call)); cbn [length]; lia.
Qed.

(** The table of tool calls only grows, and only by [tool_call] events:
    after any sequence of events it holds the calls it held before, in
    their places, followed by one new call for each [tool_call] event.  In
    particular a [tool_response] or an [error] event never adds or removes
    a call. *)
Theorem tool_table_grows_by_tool_calls (env : Env) (evs : list StreamingEvent)
    (ch : Closure * Hook) :
  length (toolCalls (state (snd (apply_events env evs ch))))
  = length (toolCalls (state (snd ch))) + tool_call_count evs
  /\ take (length (toolCalls (state (snd ch))))
       (map tc_id (toolCalls (state (snd (apply_events env evs ch)))))
     = map tc_id (toolCalls (state (snd ch))).
Proof.
  split; [apply apply_events_toolCalls_length|].
  revert ch. induction evs as [|e evs IH]; intros ch.
  - cbn [apply_events fold_left].
    rewrite <- (length_map tc_id (toolCalls (state (snd ch)))). apply firstn_all.
  - cbn [apply_events fold_left]. fold (apply_events env evs (onEvent env e ch)).
    specialize (IH (onEvent env e ch)).
    rewrite <- (onEvent_toolCalls_ids env e ch).
    rewrite <- IH. rewrite take_take. f_equal.
    rewrite onEvent_toolCalls_length. lia.
Qed.

(** A [tool_response] event that names no tool, or a tool of which no call
    is running, changes nothing but the list of streaming events: no call
    is completed, none is added, the messages and [error] stay. *)
Theorem unmatched_response_changes_nothing (env : Env) (e : StreamingEvent)
    (c : Closure) (h : Hook) :
  ev_type e = tool_response ->
  match md_tool_name (ev_metadata e) with
  | Some name => forallb (fun t => negb (matches name t)) (toolCalls (state h)) = true
  | None => True
  end ->
  state (snd (onEvent env e (c, h)))
  = set_streamingEvents (streamingEvents (state h) ++ [e]) (state h).
Proof.
  intros Hkind Hnone. rewrite onEvent_state, Hkind. cbn zeta. cbn [toolCalls set_streamingEvents].
  destruct (md_tool_name (ev_metadata e)) as [name|].
  - rewrite complete_matching_none by exact Hnone. reflexivity.
  - rewrite complete_matching_unnamed. reflexivity.
Qed.

Lemma unmatched_response_changes_nothing_witness :
  let h := snd (apply_events sample_env
                  [tool_event tool_call (Some "calc") (Some "c1") None None None]
                  (handleStreamingResponse_open sample_env (useAgentChat "agent"))) in
  let e := tool_event tool_response (Some "search") None (Some "c1") (Some (JStr "42")) None in
  toolCalls (state (snd (onEvent sample_env e
                           ({| assistantMessageId := EmptyString; fullContent := EmptyString;
                               events := [] |}, h))))
  = toolCalls (state h).
Proof.
  cbn zeta.
  rewrite (unmatched_response_changes_nothing sample_env); reflexivity.
Defined.

(** An [error] event sets [error] to its content and leaves no call
    running: every call that was running gets status [error] and the
    event's content as its error, keeping its id, name, arguments and
    result; every other call, and every message, stays as it was. *)
Theorem error_event_fails_running_calls (env : Env) (e : StreamingEvent)
    (c : Closure) (h : Hook) :
  ev_type e = error ->
  let s' := state (snd (onEvent env e (c, h))) in
  error_ s' = Some (ev_content e)
  /\ messages s' = messages (state h)
  /\ Forall (fun t => tc_status t <> running) (toolCalls s')
  /\ Forall2 (fun t t' =>
                if bool_decide (tc_status t = running)
                then tc_status t' = errored /\ tc_error t' = Some (ev_content e)
                     /\ tc_id t' = tc_id t /\ tc_name t' = tc_name t
                     /\ tc_args t' = tc_args t /\ tc_result t' = tc_result t
                else t' = t)
       (toolCalls (state h)) (toolCalls s').
Proof.
  intros Hkind. cbn zeta. rewrite onEvent_state, Hkind. cbn.
  split; [reflexivity|]. split; [reflexivity|].
  unfold fail_running. split.
  - induction (toolCalls (state h)) as [|t l IH]; cbn [map]; constructor; [|exact IH].
    destruct (bool_decide (tc_status t = running)) eqn:E; [discriminate|].
    now apply bool_decide_eq_false in E.
  - induction (toolCalls (state h)) as [|t l IH]; constructor; [|exact IH].
    destruct (bool_decide (tc_status t = running)); [repeat split | reflexivity].
Qed.

Lemma error_event_fails_running_calls_witness :
  let h := snd (apply_events sample_env
                  [tool_event tool_call (Some "calc") (Some "c1") None None None]
                  (handleStreamingResponse_open sample_env (useAgentChat "agent"))) in
  let c := {| assistantMessageId := EmptyString; fullContent := EmptyString; events := [] |} in
  error_ (state (snd (onEvent sample_env (event_of error "boom" no_metadata) (c, h))))
  = Some "boom".
Proof.
  cbn zeta.
  apply (error_event_fails_running_calls sample_env (event_of error "boom" no_metadata)).
  reflexivity.
Defined.

(** * Further properties of the messages *)

Section MessageFacts.
Context (env : Env).

Lemma apply_events_closure_id (evs : list StreamingEvent) (ch : Closure * Hook) :
  assistantMessageId (fst (apply_events env evs ch)) = assistantMessageId (fst ch).
Proof.
  revert ch. induction evs as [|e evs IH]; intros ch; [reflexivity|].
  cbn [apply_events fold_left]. fold (apply_events env evs (onEvent env e ch)).
  rewrite IH. destruct ch as [c h]. now rewrite onEvent_closure.
Qed.

Lemma onEvent_other_message (e : StreamingEvent) (ch : Closure * Hook) (i : nat)
    (m : ChatMessage) :
  messages (state (snd ch)) !! i = Some m ->
  msg_id m <> assistantMessageId (fst ch) ->
  messages (state (snd (onEvent env e ch))) !! i = Some m.
Proof.
  destruct ch as [c h]. cbn [fst snd]. intros Hi Hid.
  rewrite onEvent_messages.
  apply String.eqb_neq in Hid.
  destruct (ev_type e); try exact Hi; rewrite list_lookup_fmap, Hi; cbn; now rewrite Hid.
Qed.

Lemma onEvent_messages_length (e : StreamingEvent) (ch : Closure * Hook) :
  length (messages (state (snd (onEvent env e ch)))) = length (messages (state (snd ch))).
Proof.
  destruct ch as [c h]. cbn [snd]. rewrite onEvent_messages.
  destruct (ev_type e); try reflexivity; apply length_map.
Qed.

Lemma apply_events_messages_length (evs : list StreamingEvent) (ch : Closure * Hook) :
  length (messages (state (snd (apply_events env evs ch))))
  = length (messages (state (snd ch))).
Proof.
  revert ch. induction evs as [|e evs IH]; intros ch; [reflexivity|].
  cbn [apply_events fold_left]. fold (apply_events env evs (onEvent env e ch)).
  now rewrite IH, onEvent_messages_length.
Qed.

Lemma apply_events_streamingEvents (evs : list StreamingEvent) (ch : Closure * Hook) :
  streamingEvents (state (snd (apply_events env evs ch)))
  = streamingEvents (state (snd ch)) ++ evs.
Proof.
  revert ch. induction evs as [|e evs IH]; intros ch; [now rewrite app_nil_r|].
  cbn [apply_events fold_left]. fold (apply_events env evs (onEvent env e ch)).
  rewrite IH. destruct ch as [c h]. rewrite onEvent_streamingEvents.
  now rewrite <- app_assoc.
Qed.

Lemma onEvent_error (e : StreamingEvent) (ch : Closure * Hook) :
  error_ (state (snd (onEvent env e ch)))
  = if bool_decide (ev_type e = error) then Some (ev_content e)
    else error_ (state (snd ch)).
Proof.
  destruct ch as [c h]. cbn [snd]. rewrite onEvent_state. cbn zeta.
  destruct (ev_type e); reflexivity.
Qed.

Lemma apply_events_error (evs : list StreamingEvent) (ch : Closure * Hook) :
  error_ (state (snd (apply_events env evs ch)))
  = match last_error evs with
    | Some message => Some message
    | None => error_ (state (snd ch))
    end.
Proof.
  revert ch. induction evs as [|e evs IH]; intros ch; [reflexivity|].
  cbn [apply_events fold_left]. fold (apply_events env evs (onEvent env e ch)).
  rewrite IH, onEvent_error. unfold last_error. cbn [List.filter].
  destruct (bool_decide (ev_type e = error)); [|reflexivity].
  cbn [map]. rewrite last_cons.
  now destruct (last (map ev_content _)).
Qed.

End MessageFacts.

(** The events of a turn never add, remove or reorder messages, and they
    change no message but the turn's own: a message whose id is not the
    id of the turn's assistant message is the same after any sequence of
    events. *)
Theorem events_touch_only_the_turns_message (env : Env) (evs : list StreamingEvent)
    (ch : Closure * Hook) (i : nat) (m : ChatMessage) :
  messages (state (snd ch)) !! i = Some m ->
  msg_id m <> assistantMessageId (fst ch) ->
  messages (state (snd (apply_events env evs ch))) !! i = Some m
  /\ length (messages (state (snd (apply_events env evs ch))))
     = length (messages (state (snd ch))).
Proof.
  intros Hi Hid. split; [|apply apply_events_messages_length].
  revert ch Hi Hid. induction evs as [|e evs IH]; intros ch Hi Hid; [exact Hi|].
  cbn [apply_events fold_left]. fold (apply_events env evs (onEvent env e ch)).
  apply IH.
  - now apply onEvent_other_message.
  - destruct ch as [c h]. now rewrite onEvent_closure.
Qed.

Lemma events_touch_only_the_turns_message_witness :
  let called := sendMessage_prologue sample_env "hi" true (useAgentChat "agent") in
  let opened := handleStreamingResponse_open sample_env (snd called) in
  brief <$> messages (state (snd (apply_events sample_env [sample_content; sample_complete]
                                    opened))) !! 0
  = Some (user, "hi", None, None).
Proof.
  cbn zeta.
  destruct (events_touch_only_the_turns_message sample_env [sample_content; sample_complete]
              (handleStreamingResponse_open sample_env
                 (snd (sendMessage_prologue sample_env "hi" true (useAgentChat "agent"))))
              0
              {| msg_id := "1000-r0"; msg_type := user; msg_content := "hi";
                 msg_timestamp := 1001; msg_metadata := None; msg_streaming := None;
                 msg_events := None |}) as [H _].
  - reflexivity.
  - vm_compute. discriminate.
  - rewrite H. reflexivity.
Defined.

Lemma apply_events_flags (env : Env) (evs : list StreamingEvent) (ch : Closure * Hook) :
  let h' := snd (apply_events env evs ch) in
  isLoading (state h') = isLoading (state (snd ch))
  /\ isStreaming (state h') = isStreaming (state (snd ch))
  /\ abortControllerRef h' = abortControllerRef (snd ch)
  /\ controllers h' = controllers (snd ch).
Proof.
  revert ch. induction evs as [|e evs IH]; intros ch; [repeat split|].
  cbn [apply_events fold_left]. fold (apply_events env evs (onEvent env e ch)).
  destruct (IH (onEvent env e ch)) as (-> & -> & -> & ->).
  destruct ch as [c h]. apply onEvent_flags.
Qed.

(** [clearConversation] called while a turn is in flight does not stop the
    turn, but the turn has lost its message for good: whatever events
    still arrive, the list of messages stays empty, while the events keep
    being appended to [streamingEvents], tool calls keep being added, and
    the flags [isLoading] and [isStreaming] are as they were. *)
Theorem cleared_conversation_stays_empty (env : Env) (evs : list StreamingEvent)
    (c : Closure) (h : Hook) :
  let h' := snd (apply_events env evs (c, clearConversation h)) in
  messages (state h') = []
  /\ streamingEvents (state h') = evs
  /\ length (toolCalls (state h')) = tool_call_count evs
  /\ isLoading (state h') = isLoading (state h)
  /\ isStreaming (state h') = isStreaming (state h).
Proof.
  cbn zeta.
  destruct (apply_events_flags env evs (c, clearConversation h)) as (Hl & Hs & _).
  split; [|split; [|split; [|split]]].
  - apply length_zero_iff_nil. now rewrite apply_events_messages_length.
  - now rewrite apply_events_streamingEvents.
  - now rewrite apply_events_toolCalls_length.
  - exact Hl.
  - exact Hs.
Qed.

(** [updateMessage] with an id that no message carries changes nothing. *)
Theorem update_of_unknown_id_changes_nothing (messageId : string)
    (updates : MessageUpdates) (h : Hook) :
  Forall (fun m => msg_id m <> messageId) (messages (state h)) ->
  updateMessage messageId updates h = h.
Proof.
  intros Hall. unfold updateMessage, setState, set_messages.
  destruct h as [s ref ctl clk rnd]. cbn in *. f_equal.
  destruct s as [msgs ld st ag er tc se]. cbn in *. f_equal.
  induction Hall as [|m l Hm _ IH]; [reflexivity|].
  cbn [map]. apply String.eqb_neq in Hm. now rewrite Hm, IH.
Qed.

Lemma update_of_unknown_id_changes_nothing_witness :
  let h := sendMessage sample_env "hi" false
             {| stream_endpoint := NoBody; agent_endpoint := ReplyOk "hello" "agent" "success" |}
             (useAgentChat "agent") in
  updateMessage "no-such-id" (content_updates "x" []) h = h.
Proof.
  cbn zeta. apply update_of_unknown_id_changes_nothing.
  vm_compute. repeat constructor; discriminate.
Defined.

(** [updateMessage] with the id that [addMessage] has just returned
    reaches the message that was added: when that id is carried by no
    earlier message, the conversation is the earlier messages, unchanged,
    followed by the new message with the updates spread over it. *)
Theorem update_reaches_the_added_message (env : Env) (message : NewMessage)
    (updates : MessageUpdates) (h : Hook) :
  Forall (fun m => msg_id m <> fst (addMessage env message h)) (messages (state h)) ->
  exists m,
    messages (state (snd (addMessage env message h))) = messages (state h) ++ [m]
    /\ msg_id m = fst (addMessage env message h)
    /\ msg_type m = nm_type message
    /\ msg_content m = nm_content message
    /\ messages (state (updateMessage (fst (addMessage env message h)) updates
                         (snd (addMessage env message h))))
       = messages (state h) ++ [spread_message m updates].
Proof.
  intros Hall. cbn in *. eexists. split; [reflexivity|]. cbn.
  repeat split. rewrite map_app. cbn [map]. rewrite String.eqb_refl. f_equal.
  induction Hall as [|m l Hm _ IH]; [reflexivity|].
  cbn [map]. apply String.eqb_neq in Hm. now rewrite Hm, IH.
Qed.

Lemma update_reaches_the_added_message_witness :
  let nm := {| nm_type := assistant; nm_content := EmptyString; nm_metadata := None;
               nm_streaming := Some true; nm_events := Some [] |} in
  let h := snd (sendMessage_prologue sample_env "hi" true (useAgentChat "agent")) in
  brief <$> messages (state (updateMessage (fst (addMessage sample_env nm h))
                               (content_updates "Hel" [hel_event])
                               (snd (addMessage sample_env nm h))))
  = [(user, "hi", None, None); (assistant, "Hel", Some true, Some [hel_event])].
Proof.
  cbn zeta.
  destruct (update_reaches_the_added_message sample_env
              {| nm_type := assistant; nm_content := EmptyString; nm_metadata := None;
                 nm_streaming := Some true; nm_events := Some [] |}
              (content_updates "Hel" [hel_event])
              (snd (sendMessage_prologue sample_env "hi" true (useAgentChat "agent"))))
    as (m & Hadd & _ & _ & _ & Hupd).
  - vm_compute. repeat constructor. discriminate.
  - rewrite Hupd. vm_compute in Hadd. injection Hadd as <-. reflexivity.
Defined.

(** A [complete] event ends the turn's message: whatever events came
    before it, the message is then not streaming, its text is what the
    [content] events have accumulated, and its metadata is the event's
    metadata with [total_events] set to the number of events of the turn
    so far, the [complete] event included. *)
Theorem complete_event_closes_the_message (env : Env) (h : Hook)
    (evs : list StreamingEvent) (e : StreamingEvent) :
  ev_type e = complete ->
  exists m md,
    assistant_after env h (evs ++ [e]) = Some m
    /\ msg_streaming m = Some false
    /\ msg_content m = accumulated evs
    /\ msg_metadata m = Some md
    /\ md !! "total_events" = Some (JNum (Z.of_nat (S (length evs))))
    /\ forall key, key <> "total_events" ->
         md !! key = spread_metadata (ev_metadata e) !! key.
Proof.
  intros Hkind. unfold assistant_after.
  pose proof (turn_ok_events env _ [] evs _ (turn_ok_open env h)) as Hturn.
  rewrite apply_events_snoc.
  destruct (apply_events env evs (handleStreamingResponse_open env h)) as [c h1].
  destruct Hturn as (Hev & _ & _ & m & Hlast & Hid & _ & Hc & _). cbn [fst snd] in *.
  rewrite onEvent_messages, Hkind, last_map, Hlast. cbn [option_map].
  rewrite Hid, String.eqb_refl, Hev. cbn [app].
  do 2 eexists. split; [reflexivity|]. cbn.
  split; [reflexivity|]. split; [exact Hc|]. split; [reflexivity|].
  rewrite length_app, Nat.add_1_r. split.
  - apply lookup_insert_eq.
  - intros key Hkey. now apply lookup_insert_ne.
Qed.

Lemma complete_event_closes_the_message_witness :
  exists m,
    assistant_after sample_env (useAgentChat "agent") ([sample_content] ++ [sample_complete])
    = Some m
    /\ msg_streaming m = Some false.
Proof.
  destruct (complete_event_closes_the_message sample_env (useAgentChat "agent")
              [sample_content] sample_complete) as (m & md & Hm & Hs & _).
  - reflexivity.
  - exists m. split; [exact Hm | exact Hs].
Defined.

(** * Further properties of a turn *)

Lemma last_removelast {A : Type} (l : list A) (x : A) :
  last l = Some x -> l = removelast l ++ [x].
Proof.
  induction l as [|y l IH]; [discriminate|].
  destruct l as [|z l].
  - cbn. now intros [= ->].
  - intros H. change (removelast (y :: z :: l)) with (y :: removelast (z :: l)).
    cbn [app]. f_equal. apply IH. exact H.
Qed.

Section CompletedTurn.
Context (env : Env).

Lemma onEvent_none_streaming (e : StreamingEvent) (ch : Closure * Hook) :
  none_streaming (messages (state (snd ch))) = true ->
  none_streaming (messages (state (snd (onEvent env e ch)))) = true.
Proof.
  destruct ch as [c h]. cbn [snd]. intros H. rewrite onEvent_messages.
  destruct (ev_type e); try exact H;
    (apply none_streaming_map; [|exact H]);
    intros m; apply update_keeps_not_streaming; (reflexivity || discriminate).
Qed.

Lemma apply_events_none_streaming (evs : list StreamingEvent) (ch : Closure * Hook) :
  none_streaming (messages (state (snd ch))) = true ->
  none_streaming (messages (state (snd (apply_events env evs ch)))) = true.
Proof.
  revert ch. induction evs as [|e evs IH]; intros ch H; [exact H|].
  apply IH, onEvent_none_streaming, H.
Qed.

Lemma complete_clears_the_flag (e : StreamingEvent) (ch : Closure * Hook) (m : ChatMessage) :
  ev_type e = complete ->
  single_streaming (messages (state (snd ch))) = true ->
  last (messages (state (snd ch))) = Some m ->
  msg_id m = assistantMessageId (fst ch) ->
  none_streaming (messages (state (snd (onEvent env e ch)))) = true.
Proof.
  destruct ch as [c h]. cbn [fst snd]. intros Hkind Hsingle Hlast Hid.
  rewrite onEvent_messages, Hkind, (last_removelast _ _ Hlast), map_app.
  cbn [map]. rewrite none_streaming_snoc, Hid, String.eqb_refl.
  apply andb_true_intro. split.
  - apply none_streaming_map; [|exact Hsingle].
    intros m'. apply update_keeps_not_streaming; (reflexivity || discriminate).
  - unfold streaming_assistant. cbn.
    rewrite (bool_decide_eq_false_2 (Some false = Some true)) by discriminate.
    now rewrite Bool.andb_false_r.
Qed.

Lemma turn_with_complete_none_streaming (evs earlier seen : list StreamingEvent)
    (ch : Closure * Hook) :
  turn_ok earlier seen ch ->
  single_streaming (messages (state (snd ch))) = true ->
  existsb is_complete evs = true ->
  none_streaming (messages (state (snd (apply_events env evs ch)))) = true.
Proof.
  revert seen ch. induction evs as [|e evs IH]; intros seen ch Hturn Hsingle Hex;
    [discriminate|].
  cbn [apply_events fold_left]. fold (apply_events env evs (onEvent env e ch)).
  cbn [existsb] in Hex. destruct (is_complete e) eqn:He.
  - apply apply_events_none_streaming.
    destruct Hturn as (_ & _ & _ & m & Hlast & Hid & _).
    apply (complete_clears_the_flag e ch m); try assumption.
    now apply bool_decide_eq_true in He.
  - apply (IH (seen ++ [e])); [now apply turn_ok_step| |exact Hex].
    now apply onEvent_single_streaming.
Qed.

End CompletedTurn.

(** A streaming turn that receives a [complete] event leaves no message
    marked as streaming, when none was before it: the next call of
    [sendMessage] then finds the state it needs to keep at most one
    streaming message. *)
Theorem completed_turn_leaves_none_streaming (env : Env) (content_ : string)
    (server : Server) (h : Hook) :
  none_streaming (messages (state h)) = true ->
  existsb is_complete (decode env (stream_endpoint server)) = true ->
  none_streaming (messages (state (sendMessage env content_ true server h))) = true.
Proof.
  intros Hnone Hcomplete. rewrite sendMessage_streaming. cbn zeta.
  match goal with
  | |- context [settle ?t ?x] => destruct (settle_state t x) as (-> & _)
  end.
  assert (Hin : none_streaming
                  (messages (state (snd (apply_events env
                     (decode env (stream_endpoint server))
                     (handleStreamingResponse_open env
                        (snd (sendMessage_prologue env content_ true h))))))) = true).
  { apply (turn_with_complete_none_streaming env _ _ []
             _ (turn_ok_open env _)); [|exact Hcomplete].
    cbn -[single_streaming none_streaming app].
    rewrite single_streaming_snoc, none_streaming_snoc, Hnone. reflexivity. }
  unfold decode in Hin. destruct (thrown_of _); exact Hin.
Qed.

Lemma completed_turn_leaves_none_streaming_witness :
  none_streaming
    (messages (state (sendMessage sample_env "hi" true
                        (server_of (Streams [frame ok_payload; frame complete_payload] Closed))
                        (useAgentChat "agent")))) = true.
Proof.
  apply completed_turn_leaves_none_streaming; reflexivity.
Defined.

(** A non-streaming turn, run to its end: the user message is appended;
    when the agent answers, its answer is appended as an assistant message
    that carries the agent id and status as metadata and is not marked as
    streaming, and [error] is null; when the request fails, nothing else
    is appended and [error] is the failure's message.  Either way
    [isLoading] and [isStreaming] end false, the controller is released,
    and the tool calls are untouched. *)
Theorem non_streaming_turn (env : Env) (content_ : string) (server : Server) (h : Hook) :
  let h' := sendMessage env content_ false server h in
  isLoading (state h') = false
  /\ isStreaming (state h') = false
  /\ abortControllerRef h' = None
  /\ toolCalls (state h') = toolCalls (state h)
  /\ streamingEvents (state h') = []
  /\ exists u,
       brief u = (user, content_, None, None)
       /\ match agent_endpoint server with
          | ReplyOk response agent_id status =>
              error_ (state h') = None
              /\ exists a md,
                   messages (state h') = messages (state h) ++ [u; a]
                   /\ brief a = (assistant, response, None, None)
                   /\ msg_metadata a = Some md
                   /\ md !! "agent_id" = Some (JStr agent_id)
                   /\ md !! "status" = Some (JStr status)
          | ReplyFails e =>
              error_ (state h') = Some (errorMessage e)
              /\ messages (state h') = messages (state h) ++ [u]
          end.
Proof.
  cbn zeta. unfold sendMessage.
  pose proof (fresh_signal_not_aborted env content_ false h) as Hsig.
  pose proof (sendMessage_prologue_state env content_ false h) as Hp.
  destruct (sendMessage_prologue env content_ false h) as [signal hp].
  destruct Hsig as [Hsig _]. destruct Hp as (_ & _ & _ & Hst).
  unfold handleSyncResponse. rewrite Hsig.
  pose (u := {| msg_id := pretty (date_now env (clock_reads h)) +:+ "-"
                            +:+ math_random env (random_draws h);
                msg_type := user; msg_content := content_;
                msg_timestamp := date_now env (S (clock_reads h));
                msg_metadata := None; msg_streaming := None; msg_events := None |}).
  destruct (agent_endpoint server) as [response agent_id status|e]; cbn; rewrite Hst; cbn.
  - repeat split. exists u. split; [reflexivity|]. split; [reflexivity|].
    do 2 eexists. split; [now rewrite <- app_assoc|]. repeat split.
  - repeat split. exists u. split; [reflexivity|]. split; reflexivity.
Qed.

(** A streaming turn, run to its end, always ends with [isLoading] and
    [isStreaming] false and the controller released.  [error] is then the
    message of what [streamAgent] threw; when it threw nothing, [error] is
    the content of the last [error] event of the turn, and null when the
    turn had none: an error left by an earlier turn does not survive. *)
Theorem streaming_turn_ends_settled (env : Env) (content_ : string) (server : Server)
    (h : Hook) :
  let o := streamAgent env (json_parse env) (returning collect) false
             (stream_endpoint server) [] in
  let h' := sendMessage env content_ true server h in
  isLoading (state h') = false
  /\ isStreaming (state h') = false
  /\ abortControllerRef h' = None
  /\ error_ (state h')
     = match completion o with
       | Threw e => Some (errorMessage e)
       | _ => last_error (final o)
       end.
Proof.
  cbn zeta. rewrite sendMessage_streaming. cbn zeta.
  pose proof (sendMessage_prologue_state env content_ true h) as Hp.
  destruct (sendMessage_prologue env content_ true h) as [signal hp].
  destruct Hp as (_ & _ & _ & Hst). cbn [snd].
  match goal with
  | |- context [settle ?t ?x] => destruct (settle_state t x) as (-> & -> & _)
  end.
  pose proof (apply_events_error env
                (final (streamAgent env (json_parse env) (returning collect) false (stream_endpoint server) []))
                (handleStreamingResponse_open env hp)) as Herr.
  assert (Hnull : error_ (state (snd (handleStreamingResponse_open env hp))) = None).
  { cbn. now rewrite Hst. }
  rewrite Hnull in Herr.
  destruct (completion (streamAgent env (json_parse env) (returning collect) false (stream_endpoint server) []));
    cbn [thrown_of]; repeat split; cbn [error_ set_isStreaming set_isLoading];
    rewrite Herr; now destruct (last_error _).
Qed.

(** With two calls of [sendMessage] in flight, [stopStreaming] aborts the
    later one only: the ref holds the controller of the latest call, so
    the signal of the earlier call is never aborted by it, and the state
    is not changed. *)
Theorem stop_reaches_only_the_latest_call (env : Env)
    (content1 content2 : string) (streaming1 streaming2 : bool)
    (server1 server2 : Server) (h : Hook) :
  let first := sendMessage_call env content1 streaming1 server1 h in
  let second := sendMessage_call env content2 streaming2 server2 (snd first) in
  let h' := stopStreaming (snd second) in
  aborted (signal_of (fst first)) h' = false
  /\ aborted (signal_of (fst second)) h' = true
  /\ state h' = state (snd second).
Proof.
  cbn zeta. unfold aborted.
  destruct streaming1, streaming2; cbn;
    rewrite <- ?app_assoc; cbn [app];
    rewrite ?length_app; cbn [length];
    repeat split.
  all: try (rewrite list_lookup_insert_ne by lia;
            now rewrite list_lookup_middle).
  all: rewrite list_lookup_insert_eq; [reflexivity|];
       rewrite !length_app; cbn [length]; lia.
Qed.

(** * Properties of the tool panel *)

Lemma map_get_set_eq {V : Type} (key : string) (value : V) (m : list (string * V)) :
  map_get key (map_set key value m) = Some value.
Proof.
  induction m as [|[k v] m IH]; cbn.
  - now rewrite String.eqb_refl.
  - destruct (String.eqb k key) eqn:E; cbn; rewrite E; [reflexivity | exact IH].
Qed.

Lemma map_get_set_ne {V : Type} (key key' : string) (value : V) (m : list (string * V)) :
  key <> key' -> map_get key (map_set key' value m) = map_get key m.
Proof.
  intros Hne. induction m as [|[k v] m IH]; cbn.
  - destruct (String.eqb_spec key' key); [congruence | reflexivity].
  - destruct (String.eqb_spec k key'); cbn.
    + subst k. destruct (String.eqb_spec key' key); [congruence | reflexivity].
    + destruct (String.eqb k key); [reflexivity | exact IH].
Qed.

Lemma callKey_nonempty (event : StreamingEvent) : callKey event <> EmptyString.
Proof.
  assert (Hfallback : forall a b : string, a +:+ "_" +:+ b <> EmptyString).
  { intros [|c a] b; [rewrite append_nil, append_cons | rewrite append_cons];
      discriminate. }
  unfold callKey. destruct (md_call_id (ev_metadata event)) as [id|]; [|apply Hfallback].
  destruct (String.eqb_spec id EmptyString); [apply Hfallback | assumption].
Qed.

Lemma on_streaming_event_other (key : string) (event : StreamingEvent)
    (m : list (string * ProcessedToolExecution)) :
  calls_key key event = false ->
  map_get key m = None ->
  map_get key (on_streaming_event event m) = None.
Proof.
  unfold calls_key, on_streaming_event. intros Hcall Hnone.
  destruct (ev_type event); try exact Hnone.
  - cbn in Hcall. destruct (map_has (callKey event) m); [exact Hnone|].
    rewrite map_get_set_ne; [exact Hnone|].
    intros ->. now rewrite String.eqb_refl in Hcall.
  - destruct (md_response_id (ev_metadata event)) as [rid|]; [|exact Hnone].
    destruct (String.eqb rid EmptyString); [exact Hnone|].
    destruct (map_get rid m) eqn:Hrid; [|exact Hnone].
    rewrite map_get_set_ne; [exact Hnone|]. intros ->. congruence.
Qed.

Lemma events_without_call (key : string) (evs : list StreamingEvent)
    (m : list (string * ProcessedToolExecution)) :
  existsb (calls_key key) evs = false ->
  map_get key m = None ->
  map_get key (fold_left (fun m event => on_streaming_event event m) evs m) = None.
Proof.
  revert m. induction evs as [|e evs IH]; intros m Hnone Hget; [exact Hget|].
  cbn [existsb] in Hnone. apply Bool.orb_false_iff in Hnone as [He Hevs].
  cbn [fold_left]. apply IH; [exact Hevs|]. now apply on_streaming_event_other.
Qed.

Lemma on_streaming_event_present (key : string) (event : StreamingEvent)
    (m : list (string * ProcessedToolExecution)) (x : ProcessedToolExecution) :
  key <> EmptyString ->
  map_get key m = Some x ->
  map_get key (on_streaming_event event m)
  = Some (if responds_to key event then complete_execution event x else x).
Proof.
  unfold responds_to, on_streaming_event. intros Hkey Hget.
  destruct (ev_type event); cbn [bool_decide andb]; try exact Hget.
  - rewrite bool_decide_eq_false_2 by discriminate. cbn [andb].
    unfold map_has. destruct (map_get (callKey event) m) eqn:Hc; [exact Hget|].
    rewrite map_get_set_ne; [exact Hget|]. intros ->. congruence.
  - rewrite bool_decide_eq_true_2 by reflexivity. cbn [andb].
    destruct (md_response_id (ev_metadata event)) as [rid|]; [|exact Hget].
    destruct (String.eqb_spec rid key) as [->|Hne].
    + destruct (String.eqb_spec key EmptyString); [congruence|].
      rewrite Hget. apply map_get_set_eq.
    + destruct (String.eqb rid EmptyString); [exact Hget|].
      destruct (map_get rid m); [|exact Hget].
      rewrite map_get_set_ne; [exact Hget | congruence].
Qed.

Lemma events_after_call (key : string) (evs : list StreamingEvent)
    (m : list (string * ProcessedToolExecution)) (x : ProcessedToolExecution) :
  key <> EmptyString ->
  map_get key m = Some x ->
  map_get key (fold_left (fun m event => on_streaming_event event m) evs m)
  = Some (fold_left (fun x r => complete_execution r x)
            (List.filter (responds_to key) evs) x).
Proof.
  intros Hkey. revert m x. induction evs as [|e evs IH]; intros m x Hget; [exact Hget|].
  cbn [fold_left List.filter].
  rewrite (IH _ _ (on_streaming_event_present key e m x Hkey Hget)).
  now destruct (responds_to key e).
Qed.

Lemma first_that {A : Type} (p : A -> bool) (l : list A) :
  existsb p l = true ->
  exists l1 x l2, l = l1 ++ x :: l2 /\ p x = true /\ existsb p l1 = false.
Proof.
  induction l as [|y l IH]; [discriminate|].
  cbn [existsb]. destruct (p y) eqn:Hy.
  - intros _. exists [], y, l. repeat split. exact Hy.
  - cbn [orb]. intros H. destruct (IH H) as (l1 & x & l2 & -> & Hx & Hl1).
    exists (y :: l1), x, l2. repeat split; [exact Hx|]. cbn [existsb]. now rewrite Hy.
Qed.

Lemma filter_nonempty_existsb {A B : Type} (p : A -> bool) (l : list A) (a b : B) :
  match List.filter p l with [] => a | _ :: _ => b end
  = if existsb p l then b else a.
Proof.
  induction l as [|x l IH]; [reflexivity|].
  cbn [List.filter existsb]. now destruct (p x).
Qed.

Lemma on_streaming_event_new (e : StreamingEvent)
    (m : list (string * ProcessedToolExecution)) :
  ev_type e = tool_call ->
  map_get (callKey e) m = None ->
  on_streaming_event e m = map_set (callKey e) (new_execution (callKey e) e) m.
Proof.
  intros Hkind Hnone. unfold on_streaming_event, map_has. rewrite Hkind. cbv zeta.
  now rewrite Hnone.
Qed.

Lemma row_after_first_call (evs1 evs2 : list StreamingEvent) (e : StreamingEvent) :
  ev_type e = tool_call ->
  existsb (calls_key (callKey e)) evs1 = false ->
  map_get (callKey e) (events_map (evs1 ++ e :: evs2))
  = Some (row_of e (List.filter (responds_to (callKey e)) evs2)).
Proof.
  intros Hkind Hfirst. unfold events_map, row_of.
  rewrite fold_left_app. cbn [fold_left].
  pose proof (events_without_call (callKey e) evs1 [] Hfirst eq_refl) as Hnone.
  apply events_after_call; [apply callKey_nonempty|].
  rewrite on_streaming_event_new by assumption.
  apply map_get_set_eq.
Qed.

(** The panel correlates by id.  The row under a key is made by the first
    [tool_call] event with that key (a later [tool_call] with the same key
    is ignored) and changed only by the [tool_response] events after it
    whose [response_id] is that key, applied in order: every one of them
    sets the status to completed, the result and the end time, and is
    added to the row's events.  No other event touches the row. *)
Theorem panel_row_is_made_by_its_events (evs1 evs2 : list StreamingEvent)
    (e : StreamingEvent) :
  ev_type e = tool_call ->
  existsb (calls_key (callKey e)) evs1 = false ->
  exists row,
    map_get (callKey e) (events_map (evs1 ++ e :: evs2)) = Some row
    /\ row = row_of e (List.filter (responds_to (callKey e)) evs2)
    /\ px_id row = callKey e
    /\ px_name row = str_or (md_tool_name (ev_metadata e)) "Unknown Tool"
    /\ px_events row = e :: List.filter (responds_to (callKey e)) evs2
    /\ px_status row
       = (if existsb (responds_to (callKey e)) evs2 then completed else running)
    /\ px_result row
       = match last (List.filter (responds_to (callKey e)) evs2) with
         | Some r => js_or (md_raw_response (ev_metadata r)) (md_tool_result (ev_metadata r))
         | None => None
         end.
Proof.
  intros Hkind Hfirst. eexists. split; [now apply row_after_first_call|].
  split; [reflexivity|]. unfold row_of.
  assert (Hfold : forall rs x,
            let y := fold_left (fun x r => complete_execution r x) rs x in
            px_id y = px_id x /\ px_name y = px_name x
            /\ px_events y = px_events x ++ rs
            /\ px_status y = (match rs with [] => px_status x | _ => completed end)
            /\ px_result y
               = match last rs with
                 | Some r => js_or (md_raw_response (ev_metadata r))
                               (md_tool_result (ev_metadata r))
                 | None => px_result x
                 end).
  { induction rs as [|r rs IH]; intros x; cbn zeta.
    - cbn. now rewrite app_nil_r.
    - cbn [fold_left]. destruct (IH (complete_execution r x)) as (H1 & H2 & H3 & H4 & H5).
      rewrite H1, H2, H3, H4, H5. cbn. rewrite <- app_assoc. repeat split.
      + now destruct rs.
      + rewrite last_cons. now destruct (last rs). }
  destruct (Hfold (List.filter (responds_to (callKey e)) evs2)
              (new_execution (callKey e) e)) as (H1 & H2 & H3 & H4 & H5).
  cbn zeta in *. rewrite H1, H2, H3, H4, H5. cbn.
  repeat split. apply filter_nonempty_existsb.
Qed.

Lemma panel_row_is_made_by_its_events_witness :
  let call1 := tool_event tool_call (Some "calc") (Some "c1") None None None in
  let call2 := tool_event tool_call (Some "calc") (Some "c2") None None None in
  let resp1 := tool_event tool_response (Some "calc") None (Some "c1") (Some (JStr "42")) None in
  (px_status <$> map_get "c1" (events_map ([] ++ call1 :: [call2; resp1]))) = Some completed
  /\ (px_status <$> map_get "c2" (events_map ([call1] ++ call2 :: [resp1]))) = Some running.
Proof.
  cbn zeta. split.
  - destruct (panel_row_is_made_by_its_events []
                [tool_event tool_call (Some "calc") (Some "c2") None None None;
                 tool_event tool_response (Some "calc") None (Some "c1") (Some (JStr "42")) None]
                (tool_event tool_call (Some "calc") (Some "c1") None None None)
                eq_refl eq_refl) as (row & Hget & _ & _ & _ & _ & Hst & _).
    change (callKey (tool_event tool_call (Some "calc") (Some "c1") None None None))
      with "c1" in Hget.
    rewrite Hget. cbn. now rewrite Hst.
  - destruct (panel_row_is_made_by_its_events
                [tool_event tool_call (Some "calc") (Some "c1") None None None]
                [tool_event tool_response (Some "calc") None (Some "c1") (Some (JStr "42")) None]
                (tool_event tool_call (Some "calc") (Some "c2") None None None)
                eq_refl eq_refl) as (row & Hget & _ & _ & _ & _ & Hst & _).
    change (callKey (tool_event tool_call (Some "calc") (Some "c2") None None None))
      with "c2" in Hget.
    rewrite Hget. cbn. now rewrite Hst.
Defined.

(** A row exists under a key exactly when some [tool_call] event has that
    key: a [tool_response] whose [response_id] matches no earlier
    [tool_call] creates no row, and neither does any other event. *)
Theorem panel_rows_come_from_tool_calls (evs : list StreamingEvent) (key : string) :
  map_has key (events_map evs) = existsb (calls_key key) evs.
Proof.
  destruct (existsb (calls_key key) evs) eqn:Hex.
  - destruct (first_that _ _ Hex) as (evs1 & e & evs2 & -> & He & Hfirst).
    unfold calls_key in He. apply andb_prop in He as [Hkind Hkey].
    apply bool_decide_eq_true in Hkind. apply String.eqb_eq in Hkey. subst key.
    unfold map_has. now rewrite (row_after_first_call evs1 evs2 e Hkind Hfirst).
  - unfold map_has, events_map.
    now rewrite (events_without_call key evs [] Hex eq_refl).
Qed.

Lemma insert_by_start_permutation (x : ProcessedToolExecution)
    (l : list ProcessedToolExecution) :
  Permutation (insert_by_start x l) (x :: l).
Proof.
  induction l as [|y l IH]; [reflexivity|].
  cbn [insert_by_start]. destruct (start_key x <? start_key y)%Z; [reflexivity|].
  rewrite IH. apply perm_swap.
Qed.

Lemma insert_by_start_sorted (x : ProcessedToolExecution)
    (l : list ProcessedToolExecution) :
  StronglySorted (fun a b => (start_key a <= start_key b)%Z) l ->
  StronglySorted (fun a b => (start_key a <= start_key b)%Z) (insert_by_start x l).
Proof.
  induction 1 as [|y l Hl IH Hy]; cbn [insert_by_start].
  - repeat constructor.
  - destruct (Z.ltb_spec (start_key x) (start_key y)) as [Hlt|Hge].
    + constructor; [now constructor|].
      constructor; [lia|].
      eapply Forall_impl; [exact Hy|]. cbn. intros z Hz. lia.
    + constructor; [exact IH|].
      rewrite (insert_by_start_permutation x l). constructor; [lia | exact Hy].
Qed.

Lemma sort_by_start_from (rows acc : list ProcessedToolExecution) :
  StronglySorted (fun a b => (start_key a <= start_key b)%Z) acc ->
  let sorted := fold_left (fun sorted x => insert_by_start x sorted) rows acc in
  Permutation sorted (rows ++ acc)
  /\ StronglySorted (fun a b => (start_key a <= start_key b)%Z) sorted.
Proof.
  revert acc. induction rows as [|x rows IH]; intros acc Hacc; cbn zeta.
  - split; [reflexivity | exact Hacc].
  - cbn [fold_left]. destruct (IH (insert_by_start x acc)) as [Hp Hs].
    + now apply insert_by_start_sorted.
    + split; [|exact Hs]. rewrite Hp, insert_by_start_permutation.
      cbn [app]. symmetry. apply Permutation_middle.
Qed.

(** The sort is stable: among the rows of one key, a new row goes last. *)
Lemma insert_by_start_stable (k : Z) (x : ProcessedToolExecution)
    (l : list ProcessedToolExecution) :
  StronglySorted (fun a b => (start_key a <= start_key b)%Z) l ->
  List.filter (starts_at k) (insert_by_start x l)
  = List.filter (starts_at k) l ++ List.filter (starts_at k) [x].
Proof.
  induction 1 as [|y l Hl IH Hy]; [reflexivity|].
  cbn [insert_by_start].
  destruct (Z.ltb_spec (start_key x) (start_key y)) as [Hlt|Hge].
  - change (x :: y :: l) with ([x] ++ y :: l). rewrite List.filter_app.
    destruct (starts_at k x) eqn:Hx.
    + assert (Hnil : List.filter (starts_at k) (y :: l) = []).
      { apply Z.eqb_eq in Hx.
        assert (Hall : Forall (fun z => (start_key x < start_key z)%Z) (y :: l)).
        { constructor; [exact Hlt|].
          eapply Forall_impl; [exact Hy|]. cbn. intros z Hz. lia. }
        clear -Hall Hx. induction Hall as [|z l' Hz _ IHl]; [reflexivity|].
        cbn [List.filter]. unfold starts_at at 1.
        destruct (Z.eqb_spec (start_key z) k); [lia | exact IHl]. }
      rewrite Hnil, app_nil_r. reflexivity.
    + cbn [List.filter]. rewrite Hx. now rewrite app_nil_r.
  - cbn [List.filter]. rewrite IH.
    destruct (starts_at k y); reflexivity.
Qed.

Lemma sort_by_start_from_stable (k : Z) (rows acc : list ProcessedToolExecution) :
  StronglySorted (fun a b => (start_key a <= start_key b)%Z) acc ->
  List.filter (starts_at k) (fold_left (fun sorted x => insert_by_start x sorted) rows acc)
  = List.filter (starts_at k) acc ++ List.filter (starts_at k) rows.
Proof.
  revert acc. induction rows as [|x rows IH]; intros acc Hacc.
  - cbn. now rewrite app_nil_r.
  - cbn [fold_left]. rewrite IH by now apply insert_by_start_sorted.
    rewrite insert_by_start_stable by exact Hacc.
    rewrite <- app_assoc. f_equal.
    cbn [List.filter]. destruct (starts_at k x); reflexivity.
Qed.

(** The rows the panel shows are the rows of the map, each once, in
    non-decreasing order of their start time, a row without a start time
    or with an invalid one counting as time 0; rows that sort under the
    same time keep the order they have in the map. *)
Theorem panel_rows_are_sorted_by_start (toolCalls_ : list ToolCall)
    (streamingEvents_ : list StreamingEvent) :
  let rows := processedExecutions toolCalls_ streamingEvents_ in
  Permutation rows (map_values (merged_map toolCalls_ streamingEvents_))
  /\ StronglySorted (fun a b => (start_key a <= start_key b)%Z) rows
  /\ forall k, List.filter (starts_at k) rows
               = List.filter (starts_at k)
                   (map_values (merged_map toolCalls_ streamingEvents_)).
Proof.
  cbn zeta. unfold processedExecutions, sort_by_start.
  destruct (sort_by_start_from (map_values (merged_map toolCalls_ streamingEvents_)) [])
    as [Hp Hs]; [constructor|].
  cbn zeta in *. rewrite app_nil_r in Hp.
  split; [exact Hp|]. split; [exact Hs|].
  intros k. fold (merged_map toolCalls_ streamingEvents_).
  rewrite sort_by_start_from_stable by constructor. reflexivity.
Qed.

(** A time stamp beyond the range of [Date] gives an Invalid Date, whose
    row sorts under 0: a call stamped 9e12 s comes before a call stamped
    1 s. *)
Example invalid_date_sorts_first :
  px_id <$> processedExecutions [] [lone_call "c1" 9000000000000; lone_call "c2" 1]
  = ["c1"; "c2"]
  /\ px_id <$> processedExecutions [] [lone_call "c1" 8000000000000; lone_call "c2" 1]
     = ["c2"; "c1"].
Proof. split; reflexivity. Qed.

(** ** The panel beside the hook *)

Section PanelAndHook.
Context (env : Env).

Lemma complete_matching_names (toolName : option string) (result : option JsValue)
    (calls : list ToolCall) (reads : nat) :
  map tc_name (fst (complete_matching env toolName result calls reads)) = map tc_name calls.
Proof.
  revert reads. induction calls as [|call calls IH]; intros reads; [reflexivity|].
  cbn [complete_matching]. destruct (_ && _).
  - specialize (IH (S reads)).
    destruct (complete_matching env toolName result calls (S reads)). cbn in *. now rewrite IH.
  - specialize (IH reads).
    destruct (complete_matching env toolName result calls reads). cbn in *. now rewrite IH.
Qed.

Lemma fail_running_names (message : string) (calls : list ToolCall) :
  map tc_name (fail_running message calls) = map tc_name calls.
Proof.
  unfold fail_running. induction calls as [|call calls IH]; [reflexivity|].
  cbn [map]. rewrite IH. now destruct (bool_decide _).
Qed.

(** The names in the hook's table are the names it held, followed by the
    tool names of the [tool_call] events, in order. *)
Lemma apply_events_toolCall_names (evs : list StreamingEvent) (ch : Closure * Hook) :
  map tc_name (toolCalls (state (snd (apply_events env evs ch))))
  = map tc_name (toolCalls (state (snd ch)))
    ++ map (fun e => str_or (md_tool_name (ev_metadata e)) "unknown")
         (List.filter is_tool_call evs).
Proof.
  revert ch. induction evs as [|e evs IH]; intros ch; [now rewrite app_nil_r|].
  cbn [apply_events fold_left]. fold (apply_events env evs (onEvent env e ch)).
  rewrite IH. destruct ch as [c h]. cbn [snd]. rewrite onEvent_state. cbn zeta.
  cbn [List.filter]. unfold is_tool_call at 2.
  destruct (ev_type e); cbn [bool_decide]; rewrite ?bool_decide_eq_false_2 by discriminate;
    rewrite ?bool_decide_eq_true_2 by reflexivity;
    cbn [toolCalls set_toolCalls set_messages set_error set_streamingEvents map];
    try reflexivity.
  - rewrite map_app, <- app_assoc. reflexivity.
  - now rewrite complete_matching_names.
  - now rewrite fail_running_names.
Qed.

End PanelAndHook.

Lemma map_get_values {V : Type} (key : string) (m : list (string * V)) (v : V) :
  map_get key m = Some v -> In v (map_values m).
Proof.
  induction m as [|[k x] m IH]; [discriminate|].
  cbn. destruct (String.eqb k key); [intros [= ->]; now left | intros H; right; now apply IH].
Qed.

(** A tool call whose name some row carries is not given a row. *)
Lemma on_tool_call_hidden (tcs : list ToolCall) (m : list (string * ProcessedToolExecution)) :
  Forall (fun name => existsb (fun exec => String.eqb (px_name exec) name) (map_values m) = true)
    (map tc_name tcs) ->
  fold_left (fun m toolCall => on_tool_call toolCall m) tcs m = m.
Proof.
  induction tcs as [|t tcs IH]; [reflexivity|].
  cbn [map fold_left]. intros Hall. apply Forall_cons_1 in Hall as [Ht Hall].
  unfold on_tool_call at 2. rewrite Ht. now apply IH.
Qed.

(** During the first turn of a conversation the panel shows exactly the
    rows made from the streaming events, one for each key of a
    [tool_call] event: when every [tool_call] event names its tool, and
    [tool_call] events that share a key name the same tool, each tool call
    of the hook finds a row of its name and adds none of its own. *)
Theorem panel_shows_the_turns_tool_calls_once (env : Env) (agentId : string)
    (evs : list StreamingEvent) :
  (forall e, In e evs -> ev_type e = tool_call -> has_tool_name e = true) ->
  (forall e e', In e evs -> In e' evs ->
                ev_type e = tool_call -> ev_type e' = tool_call ->
                callKey e = callKey e' ->
                md_tool_name (ev_metadata e) = md_tool_name (ev_metadata e')) ->
  processedExecutions (toolCalls (replay env agentId evs)) evs
  = sort_by_start (map_values (events_map evs)).
Proof.
  intros Hnamed Hsame. unfold processedExecutions. f_equal. f_equal.
  apply on_tool_call_hidden. unfold replay.
  rewrite apply_events_toolCall_names. cbn [app map].
  apply Forall_forall. intros name Hin.
  apply list_elem_of_In, in_map_iff in Hin as (e & <- & He).
  apply filter_In in He as [He Hkind].
  apply bool_decide_eq_true in Hkind.
  assert (Hex : existsb (calls_key (callKey e)) evs = true).
  { apply existsb_exists. exists e. split; [exact He|].
    unfold calls_key. rewrite bool_decide_eq_true_2 by exact Hkind.
    now rewrite String.eqb_refl. }
  destruct (first_that _ _ Hex) as (evs1 & e0 & evs2 & Hevs & He0 & Hfirst).
  unfold calls_key in He0. apply andb_prop in He0 as [Hkind0 Hkey0].
  apply bool_decide_eq_true in Hkind0. apply String.eqb_eq in Hkey0.
  assert (Hin0 : In e0 evs) by (rewrite Hevs; apply in_elt).
  rewrite <- Hkey0 in Hfirst.
  pose proof (row_after_first_call evs1 evs2 e0 Hkind0 Hfirst) as Hrow.
  rewrite <- Hevs in Hrow. apply map_get_values in Hrow.
  apply existsb_exists. eexists. split; [exact Hrow|].
  apply String.eqb_eq.
  pose proof (Hsame e e0 He Hin0 Hkind Hkind0 (eq_sym Hkey0)) as Hname.
  pose proof (Hnamed e He Hkind) as Hn. unfold has_tool_name in Hn.
  assert (Hrow_name : forall rs x,
            px_name (fold_left (fun x r => complete_execution r x) rs x) = px_name x).
  { induction rs as [|r rs IH]; intros x; [reflexivity|]. cbn [fold_left]. now rewrite IH. }
  unfold row_of. rewrite Hrow_name. cbn. rewrite <- Hname.
  destruct (md_tool_name (ev_metadata e)) as [n|]; [|discriminate].
  cbn. destruct (String.eqb n EmptyString); [discriminate | reflexivity].
Qed.

Lemma panel_shows_the_turns_tool_calls_once_witness :
  let evs := [tool_event tool_call (Some "calc") (Some "c1") None None None;
              tool_event tool_call (Some "calc") (Some "c2") None None None;
              tool_event tool_response (Some "calc") None (Some "c1") (Some (JStr "42")) None] in
  (fun row => (px_id row, px_status row)) <$> processedExecutions
                                                (toolCalls (replay sample_env "agent" evs)) evs
  = [("c1", completed); ("c2", running)].
Proof.
  cbn zeta.
  rewrite (panel_shows_the_turns_tool_calls_once sample_env "agent").
  - reflexivity.
  - intros e He Hkind. cbn in He.
    destruct He as [<-|[<-|[<-|[]]]]; reflexivity.
  - intros e e' He He' Hkind Hkind' _. cbn in He, He'.
    destruct He as [<-|[<-|[<-|[]]]]; destruct He' as [<-|[<-|[<-|[]]]];
      try reflexivity; discriminate.
Defined.

Lemma map_set_absent {V : Type} (key : string) (value : V) (m : list (string * V)) :
  map_get key m = None -> map_set key value m = m ++ [(key, value)].
Proof.
  induction m as [|[k v] m IH]; [reflexivity|].
  cbn. destruct (String.eqb k key); [discriminate|]. intros H. now rewrite IH.
Qed.

Lemma existsb_names (name : string) (rows : list ProcessedToolExecution) :
  existsb (fun n => String.eqb n name) (map px_name rows)
  = existsb (fun exec => String.eqb (px_name exec) name) rows.
Proof.
  induction rows as [|x rows IH]; [reflexivity|]. cbn. now rewrite IH.
Qed.

Lemma on_tool_calls_rows (tcs : list ToolCall) (m : list (string * ProcessedToolExecution)) :
  Forall (fun t => map_get (tc_id t) m = None) tcs ->
  NoDup (map tc_id tcs) ->
  map_values (fold_left (fun m toolCall => on_tool_call toolCall m) tcs m)
  = map_values m
    ++ map row_of_tool_call (first_of_each_name (map px_name (map_values m)) tcs).
Proof.
  revert m. induction tcs as [|t tcs IH]; intros m Hfree Hnodup.
  - cbn. now rewrite app_nil_r.
  - apply Forall_cons_1 in Hfree as [Ht Hfree].
    cbn [map] in Hnodup. apply NoDup_cons in Hnodup as [Hnotin Hnodup].
    cbn [fold_left first_of_each_name]. unfold on_tool_call at 2.
    rewrite existsb_names.
    destruct (existsb _ (map_values m)); [now apply IH|].
    fold (row_of_tool_call t).
    rewrite IH; [| |exact Hnodup].
    + rewrite (map_set_absent _ _ _ Ht). unfold map_values.
      rewrite !map_app. cbn [map snd]. now rewrite <- app_assoc.
    + apply Forall_forall. intros t' Hin.
      rewrite map_get_set_ne.
      * rewrite Forall_forall in Hfree. now apply Hfree.
      * intros Heq. apply Hnotin. rewrite <- Heq.
        apply list_elem_of_fmap. now exists t'.
Qed.

(** Without streaming events (as right after a new call of [sendMessage],
    which empties them but keeps the tool calls) the panel lists the
    hook's tool calls, sorted by their time, but only the first call of
    each tool name: a call whose name an earlier call carries gets no
    row.  The ids of the calls are taken to be distinct. *)
Theorem panel_lists_first_call_of_each_name (toolCalls_ : list ToolCall) :
  NoDup (map tc_id toolCalls_) ->
  processedExecutions toolCalls_ []
  = sort_by_start (map row_of_tool_call (first_of_each_name [] toolCalls_)).
Proof.
  intros Hnodup. unfold processedExecutions. f_equal.
  rewrite on_tool_calls_rows; [reflexivity| |exact Hnodup].
  apply Forall_forall. reflexivity.
Qed.

Lemma panel_lists_first_call_of_each_name_witness :
  let call id name t :=
    {| tc_id := id; tc_name := name; tc_args := JObj []; tc_timestamp := t;
       tc_status := completed; tc_result := None; tc_error := None;
       tc_duration := Some 1%Z |} in
  px_id <$> processedExecutions [call "a" "calc" 30%Z; call "b" "search" 10%Z;
                                 call "c" "calc" 20%Z] []
  = ["b"; "a"].
Proof.
  cbn zeta. rewrite panel_lists_first_call_of_each_name.
  - reflexivity.
  - apply (bool_decide_unpack _). vm_compute. exact I.
Defined.

(** * What the decoder hands over, as a function of the text *)

Lemma for_lines_collect_output {E : Type} (JSON_parse : string -> option E)
    (lines : list string) (seen : list E) (warnings : list string) :
  let ps := until_sentinel (data_payloads lines) in
  for_lines JSON_parse (returning collect) lines seen warnings
  = (if existsb (fun p => String.eqb p DONE) (data_payloads lines)
     then LinesReturn else LinesEnd)
      (seen ++ omap JSON_parse ps) (warnings ++ unparsable JSON_parse ps).
Proof.
  revert seen warnings. unfold data_payloads, unparsable.
  induction lines as [|line lines IH]; intros seen warnings; cbn zeta.
  - cbn. now rewrite !app_nil_r.
  - cbn [for_lines List.filter].
    destruct (startsWith DATA_PREFIX line); [|apply IH].
    cbn [map until_sentinel existsb].
    destruct (String.eqb (slice 6 line) DONE); cbn [orb].
    + cbn. now rewrite !app_nil_r.
    + cbn [omap list_omap List.filter].
      destruct (JSON_parse (slice 6 line)) as [event|]; cbn [returning]; rewrite IH.
      * unfold collect. now rewrite <- app_assoc.
      * now rewrite <- app_assoc.
Qed.

(** What a call that reads the body hands over is a function of the
    text, whatever [JSON.parse] makes of a payload: the values handed to
    the callback are the parses of the payloads of the terminated
    [data: ] lines before the first sentinel, in order; with a callback
    that does not throw the warnings are those of these payloads on which
    [JSON.parse] throws; and the call ends by the sentinel exactly when a
    terminated [data: ] line carries it. *)
Theorem decoder_output_is_the_parsed_payloads (env : Env) {E : Type}
    (JSON_parse : string -> option E) (chunks : list string) (ending : BodyEnd) :
  let payloads := data_payloads (terminated_lines (received chunks)) in
  let o := streamAgent env JSON_parse (returning collect) false (Streams chunks ending) [] in
  final o = omap JSON_parse (until_sentinel payloads)
  /\ warned o = unparsable JSON_parse (until_sentinel payloads)
  /\ completion o
     = if existsb (fun p => String.eqb p DONE) payloads then BySentinel
       else match ending with Closed => ByClose | Broken e => Threw e end.
Proof.
  cbn zeta. rewrite streamAgent_lines.
  pose proof (for_lines_collect_output JSON_parse (terminated_lines (received chunks)) [] [])
    as H.
  cbn zeta in H. rewrite H.
  destruct (existsb _ (data_payloads (terminated_lines (received chunks))));
    repeat split.
Qed.

(** * Properties of the events log *)

Lemma sliced_line (units dots : list N) :
  length dots = 3 ->
  let line := take 50 units ++ (if (50 <? length units)%nat then dots else []) in
  length line <= 53
  /\ (length units <= 50 -> line = units)
  /\ (50 < length units ->
      length line = 53
      /\ line = take 50 units ++ dots
      /\ take 50 line = take 50 units).
Proof.
  intros Hdots. cbn zeta.
  destruct (Nat.ltb_spec 50 (length units)) as [Hlong|Hshort].
  - assert (Hlen : length (take 50 units) = 50) by (rewrite length_take; lia).
    split; [|split].
    + rewrite length_app, Hlen, Hdots. lia.
    + lia.
    + intros _. split; [rewrite length_app, Hlen, Hdots; reflexivity|].
      split; [reflexivity|].
      apply take_app_length'. now rewrite Hlen.
  - rewrite app_nil_r, take_ge by exact Hshort.
    split; [lia|]. split; [reflexivity | lia].
Qed.

(** The log line of an event other than [content], [tool_call] and
    [tool_response], counted as the code counts, in UTF-16 code units:
    it is the event's content when that has at most 50 code units, and
    otherwise its first 50 code units followed by three dots: a line of
    exactly 53 code units that starts as the content does. *)
Theorem log_line_is_bounded (event : StreamingEvent) :
  ev_type event <> content ->
  ev_type event <> tool_call ->
  ev_type event <> tool_response ->
  let units := code_units (ev_content event) in
  let line := formatEventContent event in
  length line <= 53
  /\ (length units <= 50 -> line = units)
  /\ (50 < length units ->
      length line = 53
      /\ line = take 50 units ++ code_units "..."
      /\ take 50 line = take 50 units).
Proof.
  intros H1 H2 H3. cbn zeta. unfold formatEventContent.
  destruct (ev_type event); try congruence;
    apply (sliced_line (code_units (ev_content event)) (code_units "...")); reflexivity.
Qed.

Lemma log_line_is_bounded_witness :
  formatEventContent (event_of thinking "weighing the options" no_metadata)
  = code_units "weighing the options".
Proof.
  destruct (log_line_is_bounded (event_of thinking "weighing the options" no_metadata))
    as (_ & Hshort & _); try discriminate.
  apply Hshort. vm_compute. lia.
Defined.

(** Thirty accented letters are sixty bytes and thirty code units: the
    line is the content, whole.  A letter and twenty-five characters
    outside the basic plane are fifty-one code units: the line is cut
    inside the last surrogate pair. *)
Example log_line_counts_code_units :
  let accented := copies 30 e_acute in
  let faces := "a" +:+ copies 25 grinning_face in
  String.length accented = 60
  /\ formatEventContent (event_of thinking accented no_metadata) = code_units accented
  /\ length (formatEventContent (event_of thinking accented no_metadata)) = 30
  /\ length (code_units faces) = 51
  /\ formatEventContent (event_of thinking faces no_metadata)
     = take 50 (code_units faces) ++ code_units "..."
  /\ last (take 50 (code_units faces)) = Some 55357%N.
Proof. vm_compute. repeat split. Qed.
